(** * Component reconciler: orchestrator configuration and workload readiness

    A shallow embedding of [pkg/compreconciler/reconciler.go] (the
    orchestrator configuration, its validation pass and the HTTP trigger
    handler) and of the readiness predicates of package [progress]
    (deployments, stateful sets, custom resource definitions), together with
    the properties the specification states about them. *)

From Stdlib Require Import ZArith Lia Bool.
From Stdlib Require Ascii String.
From stdpp Require Import base option list sorting gmap strings fin_maps.

Local Open Scope Z_scope.

(** ** Go preliminaries *)

(** A Go [error] value.  [errorString] is what [fmt.Errorf] and [errors.New]
    build; [RetriesExhaustedError] is the terminal error of the retry loop, which
    wraps the cause of the last failed attempt. *)
Inductive error : Type :=
  | errorString (msg : string)
  | RetriesExhaustedError (cause : error).

(** A Go result pair [(value, error)] whose value is only meaningful when the
    error is nil. *)
Inductive Result (A : Type) : Type :=
  | Ok (a : A)
  | Err (e : error).
Arguments Ok {A} a.
Arguments Err {A} e.

(** Signed [w]-bit wrap-around of Go's fixed-width integers. *)
Definition wrap (w : Z) (z : Z) : Z :=
  (z + 2 ^ (w - 1)) mod 2 ^ w - 2 ^ (w - 1).

Definition in_int32 (z : Z) : Prop := - 2 ^ 31 <= z < 2 ^ 31.

(** [int] is 64 bits wide on the platforms the reconciler is built for. *)
Definition int_sub (a b : Z) : Z := wrap 64 (a - b).

(** ** Orchestrator configuration (package compreconciler) *)

Module Reconciler.

(** [time.Duration] counts nanoseconds in an [int64]. *)
Definition Duration : Type := Z.
Definition Second : Duration := 1000000000.

Definition paramContractVersion : string := "version".
Definition defaultServerPort : Z := 8080.
Definition defaultMaxRetries : Z := 5.
Definition defaultUpdateInterval : Duration := 30 * Second.
Definition defaultRetryDelay : Duration := 30 * Second.

Record serverOpts : Type := {
  port : Z;
  sslCrtFile : string;
  sslKeyFile : string
}.

Section WithAction.

(** The [Action] interface and the chart provider are external collaborators;
    the configuration only stores them. *)
Context {Action Provider : Type}.

Record ComponentReconciler : Type := {
  debug : bool;
  serverOpts_ : serverOpts;
  preInstallAction : option Action;
  installAction : option Action;
  postInstallAction : option Action;
  chartProvider : option Provider;
  updateInterval : Duration;
  maxRetries : Z;
  retryDelay : Duration;
  interval : Duration;
  timeout : Duration
}.

Definition NewComponentReconciler (provider : option Provider) : ComponentReconciler :=
  {| debug := false;
     serverOpts_ := {| port := 0; sslCrtFile := ""; sslKeyFile := "" |};
     preInstallAction := None; installAction := None; postInstallAction := None;
     chartProvider := provider;
     updateInterval := 0; maxRetries := 0; retryDelay := 0;
     interval := 0; timeout := 0 |}.

(** Field assignments [r.f = v]. *)
Definition set_updateInterval (v : Duration) (r : ComponentReconciler) :=
  {| debug := debug r; serverOpts_ := serverOpts_ r;
     preInstallAction := preInstallAction r; installAction := installAction r;
     postInstallAction := postInstallAction r; chartProvider := chartProvider r;
     updateInterval := v; maxRetries := maxRetries r; retryDelay := retryDelay r;
     interval := interval r; timeout := timeout r |}.

Definition set_maxRetries (v : Z) (r : ComponentReconciler) :=
  {| debug := debug r; serverOpts_ := serverOpts_ r;
     preInstallAction := preInstallAction r; installAction := installAction r;
     postInstallAction := postInstallAction r; chartProvider := chartProvider r;
     updateInterval := updateInterval r; maxRetries := v; retryDelay := retryDelay r;
     interval := interval r; timeout := timeout r |}.

Definition set_retryDelay (v : Duration) (r : ComponentReconciler) :=
  {| debug := debug r; serverOpts_ := serverOpts_ r;
     preInstallAction := preInstallAction r; installAction := installAction r;
     postInstallAction := postInstallAction r; chartProvider := chartProvider r;
     updateInterval := updateInterval r; maxRetries := maxRetries r; retryDelay := v;
     interval := interval r; timeout := timeout r |}.

Definition set_serverOpts (v : serverOpts) (r : ComponentReconciler) :=
  {| debug := debug r; serverOpts_ := v;
     preInstallAction := preInstallAction r; installAction := installAction r;
     postInstallAction := postInstallAction r; chartProvider := chartProvider r;
     updateInterval := updateInterval r; maxRetries := maxRetries r;
     retryDelay := retryDelay r;
     interval := interval r; timeout := timeout r |}.

Definition set_port (v : Z) (o : serverOpts) : serverOpts :=
  {| port := v; sslCrtFile := sslCrtFile o; sslKeyFile := sslKeyFile o |}.

Definition set_actions (pre inst post : option Action) (r : ComponentReconciler) :=
  {| debug := debug r; serverOpts_ := serverOpts_ r;
     preInstallAction := pre; installAction := inst;
     postInstallAction := post; chartProvider := chartProvider r;
     updateInterval := updateInterval r; maxRetries := maxRetries r;
     retryDelay := retryDelay r;
     interval := interval r; timeout := timeout r |}.

(** [validate] mutates the receiver; here it returns the updated value. *)
Definition validate (r : ComponentReconciler) : ComponentReconciler :=
  let r := if updateInterval r <=? 0
           then set_updateInterval defaultUpdateInterval r else r in
  let r := if maxRetries r <=? 0
           then set_maxRetries defaultMaxRetries r else r in
  let r := if port (serverOpts_ r) <=? 0
           then set_serverOpts (set_port defaultServerPort (serverOpts_ r)) r else r in
  let r := if retryDelay r <=? 0
           then set_retryDelay defaultRetryDelay r else r in
  r.

Definition Configure (ui : Duration) (mr : Z) (rd : Duration)
    (r : ComponentReconciler) : ComponentReconciler :=
  set_retryDelay rd (set_maxRetries mr (set_updateInterval ui r)).

Definition WithServerConfiguration (p : Z) (crt key : string)
    (r : ComponentReconciler) : ComponentReconciler :=
  set_serverOpts {| port := p; sslCrtFile := crt; sslKeyFile := key |} r.

Definition WithPreInstallAction (a : option Action) (r : ComponentReconciler) :=
  set_actions a (installAction r) (postInstallAction r) r.
Definition WithInstallAction (a : option Action) (r : ComponentReconciler) :=
  set_actions (preInstallAction r) a (postInstallAction r) r.
Definition WithPostInstallAction (a : option Action) (r : ComponentReconciler) :=
  set_actions (preInstallAction r) (installAction r) a r.

End WithAction.

Arguments ComponentReconciler : clear implicits.

(** *** The HTTP trigger handler of [StartRemote] *)

Definition nl : string := String (Ascii.ascii_of_nat 10) EmptyString.

(** [err.Error()].  The text of the wrapping error is modelled: it names
    the exhaustion and then the cause. *)
Fixpoint Error (e : error) : string :=
  match e with
  | errorString msg => msg
  | RetriesExhaustedError cause => "retries exhausted: " +:+ Error cause
  end.

(** The part of [http.ResponseWriter] the handler touches: the status code,
    fixed by the first [WriteHeader], and the body written so far. *)
Record ResponseWriter : Type := {
  rw_code : option Z;
  rw_body : string
}.

Definition emptyResponse : ResponseWriter := {| rw_code := None; rw_body := "" |}.

Definition WriteHeader (code : Z) (w : ResponseWriter) : ResponseWriter :=
  match rw_code w with
  | Some _ => w
  | None => {| rw_code := Some code; rw_body := rw_body w |}
  end.

Definition Write (data : string) (w : ResponseWriter) : ResponseWriter :=
  let w := WriteHeader 200 w in
  {| rw_code := rw_code w; rw_body := rw_body w +:+ data |}.

(** [http.StatusText], for the codes the reconciler uses. *)
Definition StatusText (code : Z) : string :=
  if code =? 500 then "Internal Server Error"
  else if code =? 200 then "OK" else "".

(** [http.Error(w, msg, code)] writes the header and then [msg] with
    [fmt.Fprintln]. *)
Definition http_Error (w : ResponseWriter) (msg : string) (code : Z) : ResponseWriter :=
  Write (msg +:+ nl) (WriteHeader code w).

(** The request as the handler sees it: what reading the body yields; the
    path variables are read through [server.Params]. *)
Record Request : Type := {
  req_vars : gmap string string;
  req_body : Result string
}.

(** The decoded request model; [model.go] fixes its fields, the handler
    reads [CallbackURL]. *)
Record Reconciliation : Type := {
  Version : string;
  CallbackURL : string
}.

Inductive Outcome : Type :=
  | Returned
  | Panicked.

(** What one call of the handler did: the response, the runs it started
    (with the arguments handed to [start]) and how it ended. *)
Record HandlerRun (Handler : Type) : Type := {
  h_resp : ResponseWriter;
  h_started : list (Reconciliation * option Handler);
  h_outcome : Outcome
}.
Arguments h_resp {Handler} _.
Arguments h_started {Handler} _.
Arguments h_outcome {Handler} _.

Section Remote.

Context {Action Provider CallbackHandler : Type}.

(** Library and sibling code the handler calls: [server.Params.String],
    [json.Unmarshal], the constructor of the remote callback handler and
    [runner.Run]. *)
Variable params_String : Request -> string -> Result string.
Variable json_Unmarshal : string -> Reconciliation -> Result Reconciliation.
Variable newRemoteCallbackHandler :
  string -> bool -> option CallbackHandler * option error.
Variable runner_Run :
  ComponentReconciler Action Provider -> Reconciliation ->
  option CallbackHandler -> option error.

Definition sendError (w : ResponseWriter) (err : error) : ResponseWriter :=
  let httpCode := 500 in
  http_Error w (StatusText httpCode +:+ nl +:+ nl +:+ Error err) httpCode.

Definition modelForVersion (contractVersion : string) :
    option Reconciliation * option error :=
  if String.eqb contractVersion ""
  then (None, Some (errorString "contract version cannot be empty"))
  else (Some {| Version := ""; CallbackURL := "" |}, None).

Definition model (req : Request) : option Reconciliation * option error :=
  match params_String req paramContractVersion with
  | Err err => (None, Some err)
  | Ok contractVersion =>
    match req_body req with
    | Err err => (None, Some err)
    | Ok b =>
      match modelForVersion contractVersion with
      | (_, Some err) => (None, Some err)
      | (None, None) =>
        (None, Some (errorString "json: Unmarshal(nil *compreconciler.Reconciliation)"))
      | (Some m, None) =>
        match json_Unmarshal b m with
        | Err err => (None, Some err)
        | Ok m' => (Some m', None)
        end
      end
    end
  end.

Definition start (r : ComponentReconciler Action Provider) (m : Reconciliation)
    (cbh : option CallbackHandler) : option error :=
  runner_Run r m cbh.

(** The function registered for [/v{version}/run].  None of the three error
    branches returns: each only calls [sendError] and falls through.
    Reading [model.CallbackURL] through a nil [model] panics. *)
Definition handler (r : ComponentReconciler Action Provider) (w : ResponseWriter)
    (req : Request) : HandlerRun CallbackHandler :=
  let '(model_, err) := model req in
  let w := match err with Some e => sendError w e | None => w end in
  match model_ with
  | None => {| h_resp := w; h_started := []; h_outcome := Panicked |}
  | Some m =>
    let '(remoteCbh, err) := newRemoteCallbackHandler (CallbackURL m) (debug r) in
    let w := match err with Some e => sendError w e | None => w end in
    let w := match start r m remoteCbh with
             | Some e => sendError w e
             | None => w
             end in
    {| h_resp := w; h_started := [(m, remoteCbh)]; h_outcome := Returned |}
  end.

End Remote.

(** The remote callback handler holds the URL it delivers to. *)
Record RemoteCallbackHandler : Type := {
  rcb_callbackURL : string;
  rcb_debug : bool
}.

(** Modelled from the spec: [newRemoteCallbackHandler], which is defined
    in another file of the package.  Construction fails fast, without a
    network call, if the URL is empty or does not parse as an absolute
    URL ([absolute] stands for the parser); a failed construction yields
    no handler. *)
Definition newRemoteCallbackHandler (absolute : string -> bool)
    (callbackURL : string) (debug : bool)
    : option RemoteCallbackHandler * option error :=
  if String.eqb callbackURL "" then
    (None, Some (errorString "empty callback URL"))
  else if absolute callbackURL then
    (Some {| rcb_callbackURL := callbackURL; rcb_debug := debug |}, None)
  else
    (None, Some (errorString "callback URL is not an absolute URL")).

(** Modelled from the spec: [server.Params.String], which extracts a
    segment of the route ([/v{version}/run]) from the request and fails
    when the request has none under that name. *)
Definition params_String (req : Request) (name : string) : Result string :=
  match req_vars req !! name with
  | Some v => Ok v
  | None => Err (errorString ("parameter undefined: " +:+ name))
  end.

End Reconciler.

(** ** The run loop (package compreconciler, [runner.Run]) *)

Module Runner.
Import Reconciler.

(** Modelled from the spec: the lifecycle states reported through the
    callback.  [Running] is the state reported at the start of each attempt
    (the callback tests deliver it); the success and the failure terminal
    state are called [Success] and [Failed] here. *)
Inductive Status : Type :=
  | Running
  | Success
  | Failed.

Inductive Stage : Type :=
  | PreInstall
  | Install
  | PostInstall.

(** What a run does, in order: status deliveries, action invocations,
    readiness waits and retry delays, each with its result. *)
Inductive Event : Type :=
  | EvCallback (s : Status) (res : option error)
  | EvAction (stage : Stage) (res : option error)
  | EvTracker (res : option error)
  | EvSleep (d : Duration).

Section WithWorld.

(** The cluster and the caller, on which actions and callbacks act. *)
Context {World Provider : Type}.

(** [Action.Run(version, kubeClient) error]. *)
Definition Action : Type := string -> World -> option error * World.

(** [CallbackHandler.Callback(status) error]. *)
Record CallbackHandler : Type := {
  Callback : Status -> World -> option error * World
}.

Record RunState : Type := {
  world : World;
  trace : list Event
}.

Definition emit (ev : Event) (w : World) (st : RunState) : RunState :=
  {| world := w; trace := trace st ++ [ev] |}.

(** The readiness tracker's wait: [None] when every tracked resource became
    ready, an error when the tracker's deadline passed first. *)
Variable trackerWait :
  ComponentReconciler Action Provider -> World -> option error * World.

(** A delivery failure is recorded and the run goes on. *)
Definition deliver (cbh : CallbackHandler) (s : Status) (st : RunState) : RunState :=
  let '(res, w) := Callback cbh s (world st) in
  emit (EvCallback s res) w st.

(** An absent action is skipped. *)
Definition runStage (stage : Stage) (a : option Action) (version : string)
    (st : RunState) : option error * RunState :=
  match a with
  | None => (None, st)
  | Some act =>
    let '(res, w) := act version (world st) in
    (res, emit (EvAction stage res) w st)
  end.

(** Pre-install, install, post-install; the first error aborts the rest. *)
Definition pipeline (r : ComponentReconciler Action Provider) (version : string)
    (st : RunState) : option error * RunState :=
  match runStage PreInstall (preInstallAction r) version st with
  | (Some e, st) => (Some e, st)
  | (None, st) =>
    match runStage Install (installAction r) version st with
    | (Some e, st) => (Some e, st)
    | (None, st) => runStage PostInstall (postInstallAction r) version st
    end
  end.

Definition readiness (r : ComponentReconciler Action Provider)
    (st : RunState) : option error * RunState :=
  let '(res, w) := trackerWait r (world st) in
  (res, emit (EvTracker res) w st).

(** One attempt: deliver [Running], run the pipeline and, if it succeeded,
    wait for readiness. *)
Definition attempt (r : ComponentReconciler Action Provider) (m : Reconciliation)
    (cbh : CallbackHandler) (st : RunState) : option error * RunState :=
  let st := deliver cbh Running st in
  match pipeline r (Version m) st with
  | (Some e, st) => (Some e, st)
  | (None, st) => readiness r st
  end.

(** The attempts of one run; [more] counts the attempts left after this
    one. *)
Fixpoint attempts (r : ComponentReconciler Action Provider) (m : Reconciliation)
    (cbh : CallbackHandler) (more : nat) (st : RunState) : option error * RunState :=
  match attempt r m cbh st with
  | (None, st) => (None, deliver cbh Success st)
  | (Some cause, st) =>
    match more with
    | O => (Some (RetriesExhaustedError cause), deliver cbh Failed st)
    | S more' =>
      attempts r m cbh more' (emit (EvSleep (retryDelay r)) (world st) st)
    end
  end.

(** Modelled from the spec: [runner.Run], which is defined in another file
    of the package.  Defaults are applied, then attempts
    [1..maxRetries] follow the run algorithm of the orchestrator. *)
Definition Run (r : ComponentReconciler Action Provider) (m : Reconciliation)
    (cbh : CallbackHandler) (w : World) : option error * RunState :=
  let r := validate r in
  attempts r m cbh (Nat.pred (Z.to_nat (maxRetries r))) {| world := w; trace := [] |}.

End WithWorld.

Arguments Action : clear implicits.
Arguments CallbackHandler : clear implicits.
Arguments RunState : clear implicits.

(** Shapes of traces. *)
Definition isRunning (ev : Event) : bool :=
  match ev with EvCallback Running _ => true | _ => false end.

Definition isAction (ev : Event) : bool :=
  match ev with EvAction _ _ => true | _ => false end.

Definition isFailedAction (ev : Event) : bool :=
  match ev with EvAction _ (Some _) => true | _ => false end.

Definition countb {A} (p : A -> bool) (l : list A) : nat := length (filter (fun x => p x = true) l).

(** The events of one failed attempt: one [Running] delivery, then the
    actions that ran, the last of which failed with [cause]. *)
Definition failedAttempt (cause : error) (block : list Event) : Prop :=
  exists res stage oks,
    block = EvCallback Running res :: oks ++ [EvAction stage (Some cause)] /\
    Forall (fun ev => exists st, ev = EvAction st None) oks.

(** A run of [n] failed attempts separated by the retry delay [d] and
    closed by the delivery of [Failed]; [cause] is the last attempt's. *)
Fixpoint failedRun (d : Duration) (n : nat) (cause : error) (tr : list Event) : Prop :=
  match n with
  | O => False
  | S O => exists block res,
      failedAttempt cause block /\ tr = block ++ [EvCallback Failed res]
  | S n' => exists block c rest,
      failedAttempt c block /\ failedRun d n' cause rest /\
      tr = block ++ EvSleep d :: rest
  end.

End Runner.

(** ** Readiness predicates (package progress) *)

Module Progress.

Definition expectedReadyReplicas : Z := 1.
Definition expectedReadyDaemonSet : Z := 1.

(** [appsv1.DefaultDeploymentUniqueLabelKey]. *)
Definition DefaultDeploymentUniqueLabelKey : string := "pod-template-hash".

Record trackerResource : Type := {
  tr_name : string;
  tr_namespace : string
}.

(** *** Custom resource definitions *)

(** The two API versions declare the same condition shape in two packages;
    condition types and statuses are strings. *)
Module apiextv1.
Record CustomResourceDefinitionCondition : Type := {
  Type_ : string;
  Status : string
}.
Record CustomResourceDefinition : Type := {
  Conditions : list CustomResourceDefinitionCondition
}.
Definition Established : string := "Established".
Definition NamesAccepted : string := "NamesAccepted".
Definition ConditionTrue : string := "True".
Definition ConditionFalse : string := "False".
Definition ConditionUnknown : string := "Unknown".
End apiextv1.

Module apiextv1beta1.
Record CustomResourceDefinitionCondition : Type := {
  Type_ : string;
  Status : string
}.
Record CustomResourceDefinition : Type := {
  Conditions : list CustomResourceDefinitionCondition
}.
Definition Established : string := "Established".
Definition NamesAccepted : string := "NamesAccepted".
Definition ConditionTrue : string := "True".
Definition ConditionFalse : string := "False".
Definition ConditionUnknown : string := "Unknown".
End apiextv1beta1.

(** The [for ... range crd.Status.Conditions] loop of [crdBetaReady]. *)
Fixpoint crdBetaReady_loop
    (conds : list apiextv1beta1.CustomResourceDefinitionCondition) : bool :=
  match conds with
  | [] => false
  | cond :: rest =>
    if String.eqb (apiextv1beta1.Type_ cond) apiextv1beta1.Established then
      if String.eqb (apiextv1beta1.Status cond) apiextv1beta1.ConditionTrue
      then true else crdBetaReady_loop rest
    else if String.eqb (apiextv1beta1.Type_ cond) apiextv1beta1.NamesAccepted then
      if String.eqb (apiextv1beta1.Status cond) apiextv1beta1.ConditionFalse
      then true else crdBetaReady_loop rest
    else crdBetaReady_loop rest
  end.

Definition crdBetaReady (crd : apiextv1beta1.CustomResourceDefinition) : bool :=
  crdBetaReady_loop (apiextv1beta1.Conditions crd).

(** The [for ... range crd.Status.Conditions] loop of [crdReady]. *)
Fixpoint crdReady_loop
    (conds : list apiextv1.CustomResourceDefinitionCondition) : bool :=
  match conds with
  | [] => false
  | cond :: rest =>
    if String.eqb (apiextv1.Type_ cond) apiextv1.Established then
      if String.eqb (apiextv1.Status cond) apiextv1.ConditionTrue
      then true else crdReady_loop rest
    else if String.eqb (apiextv1.Type_ cond) apiextv1.NamesAccepted then
      if String.eqb (apiextv1.Status cond) apiextv1.ConditionFalse
      then true else crdReady_loop rest
    else crdReady_loop rest
  end.

Definition crdReady (crd : apiextv1.CustomResourceDefinition) : bool :=
  crdReady_loop (apiextv1.Conditions crd).

(** *** Stateful sets *)

(** Pointer fields ([*int32], [*RollingUpdateStatefulSetStrategy]) are
    options; [int32] fields are integers in the [int32] range. *)
Record RollingUpdateStatefulSetStrategy : Type := {
  Partition : option Z
}.

Record StatefulSet : Type := {
  sts_Replicas : option Z;
  sts_RollingUpdate : option RollingUpdateStatefulSetStrategy;
  sts_UpdatedReplicas : Z;
  sts_ReadyReplicas : Z
}.

Definition wf_StatefulSet (s : StatefulSet) : Prop :=
  from_option in_int32 True (sts_Replicas s) /\
  from_option (fun ru => from_option in_int32 True (Partition ru)) True
    (sts_RollingUpdate s) /\
  in_int32 (sts_UpdatedReplicas s) /\
  in_int32 (sts_ReadyReplicas s).

(** *** Deployments and replica sets *)

Record OwnerReference : Type := {
  or_UID : string;
  or_Controller : option bool
}.

Record ObjectMeta : Type := {
  Name : string;
  Namespace : string;
  UID : string;
  CreationTimestamp : Z;
  OwnerReferences : list OwnerReference
}.

Section Workloads.

(** Everything in a pod template besides its label map (the remaining
    metadata and the pod spec), with the semantic deep equality
    [apiequality.Semantic.DeepEqual] computes on it. *)
Context {Body : Type} (body_DeepEqual : Body -> Body -> bool).

(** The deployment's label selector and its conversion
    [metav1.LabelSelectorAsSelector], rendered with [String()]. *)
Context {LabelSelector : Type}.
Variable LabelSelectorAsSelector : LabelSelector -> Result string.

(** A pod template as a value.  [Semantic.DeepEqual] equates a nil and an
    empty map, so the label map is a finite map. *)
Record PodTemplateSpec : Type := {
  tpl_Labels : gmap string string;
  tpl_Body : Body
}.

Record ReplicaSet : Type := {
  rs_Meta : ObjectMeta;
  rs_Template : PodTemplateSpec;
  rs_ReadyReplicas : Z
}.

Record Deployment : Type := {
  d_Meta : ObjectMeta;
  d_Selector : LabelSelector;
  d_Template : PodTemplateSpec
}.

(** The calls of [kubernetes.Interface] the predicates make. *)
Record Client : Type := {
  Deployments_Get : string -> string -> Result Deployment;
  StatefulSets_Get : string -> string -> Result StatefulSet;
  ReplicaSets_List : string -> string -> Result (list ReplicaSet)
}.

(** [sort.Sort] on [replicaSetsByCreationTimestamp]: it permutes the slice
    so that no element is [Less] than one before it, and promises nothing
    about the order of elements neither of which is [Less] than the
    other. *)
Definition Less (a b : ReplicaSet) : bool :=
  if CreationTimestamp (rs_Meta a) =? CreationTimestamp (rs_Meta b)
  then String.ltb (Name (rs_Meta a)) (Name (rs_Meta b))
  else CreationTimestamp (rs_Meta a) <? CreationTimestamp (rs_Meta b).

Class SortAlgorithm : Type := {
  sort_Sort : list ReplicaSet -> list ReplicaSet;
  sort_Sort_perm : forall l, sort_Sort l ≡ₚ l;
  sort_Sort_sorted : forall l,
    StronglySorted (fun a b => Less b a = false) (sort_Sort l)
}.

Context `{SortAlgorithm}.

(** [metav1.GetControllerOfNoCopy]: the first owner reference whose
    [Controller] flag is set and true. *)
Fixpoint GetControllerOfNoCopy (refs : list OwnerReference) : option OwnerReference :=
  match refs with
  | [] => None
  | ref :: rest =>
    match or_Controller ref with
    | Some true => Some ref
    | _ => GetControllerOfNoCopy rest
    end
  end.

Definition IsControlledBy (obj owner : ObjectMeta) : bool :=
  match GetControllerOfNoCopy (OwnerReferences obj) with
  | None => false
  | Some ref => String.eqb (or_UID ref) (UID owner)
  end.

Definition Semantic_DeepEqual (t1 t2 : PodTemplateSpec) : bool :=
  bool_decide (tpl_Labels t1 = tpl_Labels t2) &&
  body_DeepEqual (tpl_Body t1) (tpl_Body t2).

Definition delete_label (key : string) (t : PodTemplateSpec) : PodTemplateSpec :=
  {| tpl_Labels := delete key (tpl_Labels t); tpl_Body := tpl_Body t |}.

(** On values the deep copies are the values themselves. *)
Definition equalIgnoreHash (template1 template2 : PodTemplateSpec) : bool :=
  let t1Copy := template1 in
  let t2Copy := template2 in
  let t1Copy := delete_label DefaultDeploymentUniqueLabelKey t1Copy in
  let t2Copy := delete_label DefaultDeploymentUniqueLabelKey t2Copy in
  Semantic_DeepEqual t1Copy t2Copy.

(** The scan of [findNewReplicaSet] over the sorted slice. *)
Fixpoint findNewReplicaSet_scan (deployment : Deployment) (rsList : list ReplicaSet)
    : option ReplicaSet :=
  match rsList with
  | [] => None
  | rs :: rest =>
    if equalIgnoreHash (rs_Template rs) (d_Template deployment)
    then Some rs
    else findNewReplicaSet_scan deployment rest
  end.

Definition findNewReplicaSet (deployment : Deployment) (rsList : list ReplicaSet)
    : option ReplicaSet :=
  findNewReplicaSet_scan deployment (sort_Sort rsList).

(** The loop of [getLatestReplicaSet] that collects the owned replica sets. *)
Fixpoint ownedReplicaSets (deployment : Deployment) (items : list ReplicaSet)
    : list ReplicaSet :=
  match items with
  | [] => []
  | item :: rest =>
    if IsControlledBy (rs_Meta item) (d_Meta deployment)
    then item :: ownedReplicaSets deployment rest
    else ownedReplicaSets deployment rest
  end.

Definition getLatestReplicaSet (deployment : Deployment) (client : Client)
    : option ReplicaSet * option error :=
  match LabelSelectorAsSelector (d_Selector deployment) with
  | Err err => (None, Some err)
  | Ok selector =>
    match ReplicaSets_List client (Namespace (d_Meta deployment)) selector with
    | Err err => (None, Some err)
    | Ok allReplicaSets =>
      let owned := ownedReplicaSets deployment allReplicaSets in
      if (length owned =? 0)%nat then (None, None)
      else (findNewReplicaSet deployment owned, None)
    end
  end.

Definition isDeploymentReady (client : Client) (object : trackerResource)
    : bool * option error :=
  match Deployments_Get client (tr_namespace object) (tr_name object) with
  | Err err => (false, Some err)
  | Ok deployment =>
    match getLatestReplicaSet deployment client with
    | (_, Some err) => (false, Some err)
    | (None, None) => (false, None)
    | (Some replicaSet, None) =>
      let isReady := expectedReadyReplicas <=? rs_ReadyReplicas replicaSet in
      (isReady, None)
    end
  end.

Definition isStatefulSetReady (client : Client) (object : trackerResource)
    : bool * option error :=
  match StatefulSets_Get client (tr_namespace object) (tr_name object) with
  | Err err => (false, Some err)
  | Ok statefulSet =>
    let partition := 0 in
    let replicas := 1 in
    let partition :=
      match sts_RollingUpdate statefulSet with
      | Some ru => match Partition ru with Some p => p | None => partition end
      | None => partition
      end in
    let replicas :=
      match sts_Replicas statefulSet with
      | Some n => n
      | None => replicas
      end in
    let expectedReplicas := int_sub replicas partition in
    if negb (sts_UpdatedReplicas statefulSet =? expectedReplicas)
    then (false, None)
    else
      let isReady := sts_ReadyReplicas statefulSet =? replicas in
      (isReady, None)
  end.

(** *** [equalIgnoreHash] on the heap

    The arguments of [equalIgnoreHash] are pointers, and a label map is
    itself a reference held by the template.  The heap keeps templates and
    label maps apart, so that a copy sharing the original's map would be
    visible. *)

Definition loc : Type := positive.

Record PodTemplateObj : Type := {
  o_Labels : option loc;
  o_Body : Body
}.

Record Heap : Type := {
  h_tpl : gmap loc PodTemplateObj;
  h_map : gmap loc (gmap string string)
}.

(** [PodTemplateSpec.DeepCopy]: a new template whose label map, when
    the original has one, is a new map with the same entries. *)
Definition DeepCopy (h : Heap) (p : loc) : option (loc * Heap) :=
  o ← h_tpl h !! p;
  match o_Labels o with
  | None =>
    let p' := fresh (dom (h_tpl h)) in
    Some (p', {| h_tpl := <[p' := o]> (h_tpl h); h_map := h_map h |})
  | Some lm =>
    m ← h_map h !! lm;
    let lm' := fresh (dom (h_map h)) in
    let p' := fresh (dom (h_tpl h)) in
    Some (p', {| h_tpl := <[p' := {| o_Labels := Some lm'; o_Body := o_Body o |}]> (h_tpl h);
                 h_map := <[lm' := m]> (h_map h) |})
  end.

(** [delete(t.Labels, key)]; deleting from a nil map does nothing. *)
Definition delete_Labels (h : Heap) (p : loc) (key : string) : option Heap :=
  o ← h_tpl h !! p;
  match o_Labels o with
  | None => Some h
  | Some lm =>
    m ← h_map h !! lm;
    Some {| h_tpl := h_tpl h; h_map := <[lm := delete key m]> (h_map h) |}
  end.

(** The template a pointer denotes. *)
Definition deref (h : Heap) (p : loc) : option PodTemplateSpec :=
  o ← h_tpl h !! p;
  match o_Labels o with
  | None => Some {| tpl_Labels := ∅; tpl_Body := o_Body o |}
  | Some lm =>
    m ← h_map h !! lm;
    Some {| tpl_Labels := m; tpl_Body := o_Body o |}
  end.

Definition DeepEqual_ptr (h : Heap) (p1 p2 : loc) : option bool :=
  t1 ← deref h p1;
  t2 ← deref h p2;
  Some (Semantic_DeepEqual t1 t2).

(** [None] stands for a nil-pointer panic. *)
Definition equalIgnoreHash_ptr (h : Heap) (template1 template2 : loc)
    : option (bool * Heap) :=
  '(t1Copy, h) ← DeepCopy h template1;
  '(t2Copy, h) ← DeepCopy h template2;
  h ← delete_Labels h t1Copy DefaultDeploymentUniqueLabelKey;
  h ← delete_Labels h t2Copy DefaultDeploymentUniqueLabelKey;
  b ← DeepEqual_ptr h t1Copy t2Copy;
  Some (b, h).

End Workloads.

End Progress.

(** ** The remaining builders and the two entry points (package compreconciler) *)

Module Entry.
Import Reconciler.

Section Builders.

Context {Action Provider : Type}.

Definition set_debug (v : bool) (r : ComponentReconciler Action Provider) :=
  {| debug := v; serverOpts_ := serverOpts_ r;
     preInstallAction := preInstallAction r; installAction := installAction r;
     postInstallAction := postInstallAction r; chartProvider := chartProvider r;
     updateInterval := updateInterval r; maxRetries := maxRetries r;
     retryDelay := retryDelay r;
     interval := interval r; timeout := timeout r |}.

Definition WithProgressTrackerConfig (interval_ timeout_ : Duration)
    (r : ComponentReconciler Action Provider) :=
  {| debug := debug r; serverOpts_ := serverOpts_ r;
     preInstallAction := preInstallAction r; installAction := installAction r;
     postInstallAction := postInstallAction r; chartProvider := chartProvider r;
     updateInterval := updateInterval r; maxRetries := maxRetries r;
     retryDelay := retryDelay r;
     interval := interval_; timeout := timeout_ |}.

Definition Debug (r : ComponentReconciler Action Provider) :=
  set_debug true r.

End Builders.

(** [server.Webserver] as [StartRemote] fills it in. *)
Record Webserver (Router : Type) : Type := {
  Port : Z;
  SSLCrtFile : string;
  SSLKeyFile : string;
  Router_ : Router
}.
Arguments Port {Router} _.
Arguments SSLCrtFile {Router} _.
Arguments SSLKeyFile {Router} _.
Arguments Router_ {Router} _.

(** What [StartLocal] leaves behind: the error it returns, the runs it
    started (configuration, model and handler handed to [start]), the
    receiver, which [validate] has updated in place, and whether it
    returned or panicked. *)
Record LocalRun (Action Provider Handler : Type) : Type := {
  sl_err : option error;
  sl_started :
    list (ComponentReconciler Action Provider * Reconciliation * option Handler);
  sl_receiver : ComponentReconciler Action Provider;
  sl_outcome : Outcome
}.
Arguments sl_err {Action Provider Handler} _.
Arguments sl_started {Action Provider Handler} _.
Arguments sl_receiver {Action Provider Handler} _.
Arguments sl_outcome {Action Provider Handler} _.

(** An incoming HTTP request before routing. *)
Record HttpRequest : Type := {
  hr_method : string;
  hr_path : string;
  hr_body : Result string
}.

(** The characters [/] and [v]. *)
Definition char_slash : Ascii.ascii := Ascii.ascii_of_nat 47.
Definition char_v : Ascii.ascii := Ascii.ascii_of_nat 118.

(** The longest prefix of a path without a slash, and what follows it:
    what the route variable pattern [[^/]+] can take. *)
Fixpoint segment (s : string) : string * string :=
  match s with
  | EmptyString => (EmptyString, EmptyString)
  | String c s' =>
    if Ascii.eqb c char_slash then (EmptyString, s)
    else let '(seg, rest) := segment s' in (String c seg, rest)
  end.

(** The route template [/v{version}/run]: the version variable of a
    matching path, which is never empty. *)
Definition routeVersion (path : string) : option string :=
  match path with
  | String c1 (String c2 rest) =>
    if Ascii.eqb c1 char_slash && Ascii.eqb c2 char_v then
      let '(version, tail) := segment rest in
      if negb (String.eqb version "") && String.eqb tail "/run"
      then Some version else None
    else None
  | _ => None
  end.

(** What the router does with a request: it calls the handler of the
    route, or answers itself (not found, method not allowed) without
    calling it. *)
Inductive Routed (Handler : Type) : Type :=
  | Handled (out : HandlerRun Handler)
  | NotRouted.
Arguments Handled {Handler} out.
Arguments NotRouted {Handler}.

Section EntryPoints.

Context {Action Provider Handler Fct : Type}.

(** The callback function a model carries ([model.CallbackFct]), the
    constructor of the local callback handler, and the collaborators of
    the HTTP handler. *)
Variable CallbackFct : Reconciliation -> Fct.
Variable newLocalCallbackHandler : Fct -> bool -> option Handler * option error.
Variable params_String : Request -> string -> Result string.
Variable json_Unmarshal : string -> Reconciliation -> Result Reconciliation.
Variable newRemoteCallbackHandler : string -> bool -> option Handler * option error.
Variable runner_Run :
  ComponentReconciler Action Provider -> Reconciliation ->
  option Handler -> option error.

(** [model] is a pointer; reading [model.CallbackFct] through a nil
    pointer panics, after [validate] has updated the receiver. *)
Definition StartLocal (r : ComponentReconciler Action Provider)
    (model : option Reconciliation) : LocalRun Action Provider Handler :=
  let r := validate r in
  match model with
  | None =>
    {| sl_err := None; sl_started := []; sl_receiver := r;
       sl_outcome := Panicked |}
  | Some m =>
    match newLocalCallbackHandler (CallbackFct m) (debug r) with
    | (_, Some err) =>
      {| sl_err := Some err; sl_started := []; sl_receiver := r;
         sl_outcome := Returned |}
    | (localCbh, None) =>
      {| sl_err := start runner_Run r m localCbh;
         sl_started := [(r, m, localCbh)];
         sl_receiver := r;
         sl_outcome := Returned |}
    end
  end.

(** The router of [StartRemote]: one route, [/v{version}/run], for the
    methods PUT and POST.  A matching request reaches the handler with
    the version as its route variable. *)
Definition router (r : ComponentReconciler Action Provider)
    (w : ResponseWriter) (hreq : HttpRequest) : Routed Handler :=
  match routeVersion (hr_path hreq) with
  | Some version =>
    if String.eqb (hr_method hreq) "PUT" || String.eqb (hr_method hreq) "POST"
    then Handled
           (handler params_String json_Unmarshal newRemoteCallbackHandler
              runner_Run r w
              {| req_vars := {[ paramContractVersion := version ]};
                 req_body := hr_body hreq |})
    else NotRouted
  | None => NotRouted
  end.

(** [StartRemote] up to the blocking [srv.Start]: the web server it
    starts, with its router. *)
Definition StartRemote (r : ComponentReconciler Action Provider)
    : Webserver (ResponseWriter -> HttpRequest -> Routed Handler) :=
  let r := validate r in
  {| Port := port (serverOpts_ r);
     SSLCrtFile := sslCrtFile (serverOpts_ r);
     SSLKeyFile := sslKeyFile (serverOpts_ r);
     Router_ := router r |}.

End EntryPoints.

End Entry.

(** ** Pods, daemon sets, jobs and the CRD fetches (package progress) *)

Module Workloads.
Import Progress.

(** [corev1.PodRunning] and [corev1.ConditionTrue]. *)
Definition PodRunning : string := "Running".
Definition ConditionTrue : string := "True".

Record PodCondition : Type := {
  pc_Type : string;
  pc_Status : string
}.

Record Pod : Type := {
  pod_Phase : string;
  pod_Conditions : list PodCondition;
  pod_DeletionTimestamp : option Z
}.

Record DaemonSet : Type := {
  ds_UpdatedNumberScheduled : Z;
  ds_DesiredNumberScheduled : Z;
  ds_NumberReady : Z
}.

Record JobCondition : Type := {
  jc_Type : string;
  jc_Status : string
}.

Record Job : Type := {
  job_Conditions : list JobCondition
}.

(** The further calls of [kubernetes.Interface] these predicates make. *)
Record WorkloadClient : Type := {
  Pods_Get : string -> string -> Result Pod;
  DaemonSets_Get : string -> string -> Result DaemonSet;
  Jobs_Get : string -> string -> Result Job
}.

(** The loop over [pod.Status.Conditions]: [false] when it returns early,
    [true] when it runs to the end. *)
Fixpoint podConditions_loop (conds : list PodCondition) : bool :=
  match conds with
  | [] => true
  | condition :: rest =>
    if negb (String.eqb (pc_Status condition) ConditionTrue) then false
    else podConditions_loop rest
  end.

Definition isPodReady (client : WorkloadClient) (object : trackerResource)
    : bool * option error :=
  match Pods_Get client (tr_namespace object) (tr_name object) with
  | Err err => (false, Some err)
  | Ok pod =>
    if negb (String.eqb (pod_Phase pod) PodRunning) then (false, None)
    else if negb (podConditions_loop (pod_Conditions pod)) then (false, None)
    else (match pod_DeletionTimestamp pod with None => true | Some _ => false end,
          None)
  end.

Definition isDaemonSetReady (client : WorkloadClient) (object : trackerResource)
    : bool * option error :=
  match DaemonSets_Get client (tr_namespace object) (tr_name object) with
  | Err err => (false, Some err)
  | Ok daemonSet =>
    if negb (ds_UpdatedNumberScheduled daemonSet =? ds_DesiredNumberScheduled daemonSet)
    then (false, None)
    else
      let isReady := expectedReadyDaemonSet <=? ds_NumberReady daemonSet in
      (isReady, None)
  end.

(** The loop over [job.Status.Conditions]. *)
Fixpoint jobConditions_loop (conds : list JobCondition) : bool :=
  match conds with
  | [] => true
  | condition :: rest =>
    if negb (String.eqb (jc_Status condition) ConditionTrue) then false
    else jobConditions_loop rest
  end.

Definition isJobReady (client : WorkloadClient) (object : trackerResource)
    : bool * option error :=
  match Jobs_Get client (tr_namespace object) (tr_name object) with
  | Err err => (false, Some err)
  | Ok job =>
    if negb (jobConditions_loop (job_Conditions job)) then (false, None)
    else (true, None)
  end.

Section CRDFetch.

(** [object.info.Get()] refreshes the object held by the tracked resource,
    [scheme.Scheme.Convert] turns it into a typed CRD; both can fail. *)
Context {Obj : Type}.
Variable info_Get : trackerResource -> Result Obj.
Variable Convert_v1beta1 : Obj -> Result apiextv1beta1.CustomResourceDefinition.
Variable Convert_v1 : Obj -> Result apiextv1.CustomResourceDefinition.

Definition isCRDBetaReady (object : trackerResource) : bool * option error :=
  match info_Get object with
  | Err err => (false, Some err)
  | Ok o =>
    match Convert_v1beta1 o with
    | Err err => (false, Some err)
    | Ok crd => if negb (crdBetaReady crd) then (false, None) else (true, None)
    end
  end.

Definition isCRDReady (object : trackerResource) : bool * option error :=
  match info_Get object with
  | Err err => (false, Some err)
  | Ok o =>
    match Convert_v1 o with
    | Err err => (false, Some err)
    | Ok crd => if negb (crdReady crd) then (false, None) else (true, None)
    end
  end.

End CRDFetch.

End Workloads.

(** * Properties *)

Import Reconciler.

(** ** Fixed-width arithmetic *)

Lemma wrap_small w z : 0 < w -> - 2 ^ (w - 1) <= z < 2 ^ (w - 1) -> wrap w z = z.
Proof.
  intros Hw Hz. unfold wrap.
  assert (Hp : 2 ^ w = 2 * 2 ^ (w - 1)).
  { replace w with (Z.succ (w - 1)) at 1 by lia. rewrite Z.pow_succ_r; lia. }
  rewrite Z.mod_small; lia.
Qed.

Lemma int_sub_int32 a b : in_int32 a -> in_int32 b -> int_sub a b = a - b.
Proof.
  unfold in_int32, int_sub. intros Ha Hb. apply wrap_small; [lia|].
  change (2 ^ (64 - 1)) with 9223372036854775808.
  change (2 ^ 31) with 2147483648 in *. lia.
Qed.

(** ** The validation pass *)

Section ValidateFacts.

Context {Action Provider : Type}.
Implicit Types r : ComponentReconciler Action Provider.

Lemma validate_updateInterval r :
  updateInterval (validate r) =
    if updateInterval r <=? 0 then defaultUpdateInterval else updateInterval r.
Proof. unfold validate. repeat (case_match; simpl); try done; lia. Qed.

Lemma validate_maxRetries r :
  maxRetries (validate r) =
    if maxRetries r <=? 0 then defaultMaxRetries else maxRetries r.
Proof. unfold validate. repeat (case_match; simpl in * ); try done; lia. Qed.

Lemma validate_retryDelay r :
  retryDelay (validate r) =
    if retryDelay r <=? 0 then defaultRetryDelay else retryDelay r.
Proof. unfold validate. repeat (case_match; simpl in * ); try done; lia. Qed.

Lemma validate_port r :
  port (serverOpts_ (validate r)) =
    if port (serverOpts_ r) <=? 0 then defaultServerPort else port (serverOpts_ r).
Proof. unfold validate. repeat (case_match; simpl in * ); try done; lia. Qed.

Lemma validate_actions r :
  preInstallAction (validate r) = preInstallAction r /\
  installAction (validate r) = installAction r /\
  postInstallAction (validate r) = postInstallAction r.
Proof. unfold validate. repeat (case_match; simpl in * ); done. Qed.

(** A configuration whose four defaulted fields are positive is a fixed
    point of [validate]. *)
Lemma validate_fixed r :
  0 < updateInterval r -> 0 < maxRetries r -> 0 < port (serverOpts_ r) ->
  0 < retryDelay r -> validate r = r.
Proof.
  intros Hu Hm Hp Hd. unfold validate.
  apply Z.leb_gt in Hu, Hm, Hp, Hd. by rewrite Hu, Hm, Hp, Hd.
Qed.

Lemma validate_positive r :
  0 < updateInterval (validate r) /\ 0 < maxRetries (validate r) /\
  0 < port (serverOpts_ (validate r)) /\ 0 < retryDelay (validate r).
Proof.
  rewrite validate_updateInterval, validate_maxRetries, validate_port,
    validate_retryDelay.
  unfold defaultUpdateInterval, defaultMaxRetries, defaultServerPort,
    defaultRetryDelay, Second.
  repeat case_match; lia.
Qed.

(** C8: [validate] sets [updateInterval] to 30 seconds, [maxRetries] to 5
    and [retryDelay] to 30 seconds when the field is unset (zero) or
    non-positive, and leaves each of them unchanged when it is positive. *)
Theorem validate_defaults r :
  (updateInterval r <= 0 -> updateInterval (validate r) = 30 * 1000000000) /\
  (0 < updateInterval r -> updateInterval (validate r) = updateInterval r) /\
  (maxRetries r <= 0 -> maxRetries (validate r) = 5) /\
  (0 < maxRetries r -> maxRetries (validate r) = maxRetries r) /\
  (retryDelay r <= 0 -> retryDelay (validate r) = 30 * 1000000000) /\
  (0 < retryDelay r -> retryDelay (validate r) = retryDelay r) /\
  (forall p : option Provider,
     let r0 := validate (NewComponentReconciler (Action := Action) p) in
     updateInterval r0 = 30 * 1000000000 /\ maxRetries r0 = 5 /\
     retryDelay r0 = 30 * 1000000000).
Proof.
  rewrite validate_updateInterval, validate_maxRetries, validate_retryDelay.
  repeat split; try (intros; case_match; try done; lia).
Qed.

(** C10: [validate] is idempotent on [updateInterval], [maxRetries],
    [retryDelay] and the server port, and after one application all four
    are positive. *)
Theorem validate_idempotent r :
  updateInterval (validate (validate r)) = updateInterval (validate r) /\
  maxRetries (validate (validate r)) = maxRetries (validate r) /\
  retryDelay (validate (validate r)) = retryDelay (validate r) /\
  port (serverOpts_ (validate (validate r))) = port (serverOpts_ (validate r)) /\
  0 < updateInterval (validate r) /\ 0 < maxRetries (validate r) /\
  0 < retryDelay (validate r) /\ 0 < port (serverOpts_ (validate r)).
Proof.
  destruct (validate_positive r) as (Hu & Hm & Hp & Hd).
  rewrite (validate_fixed (validate r)) by done. done.
Qed.

End ValidateFacts.

(** ** Custom resource definitions *)

Import Progress.

(** The readiness condition in the specification's words, for the two
    condition shapes. *)
Definition v1_accepting (c : apiextv1.CustomResourceDefinitionCondition) : Prop :=
  (apiextv1.Type_ c = "Established" /\ apiextv1.Status c = "True") \/
  (apiextv1.Type_ c = "NamesAccepted" /\ apiextv1.Status c = "False").

Definition v1beta1_accepting
    (c : apiextv1beta1.CustomResourceDefinitionCondition) : Prop :=
  (apiextv1beta1.Type_ c = "Established" /\ apiextv1beta1.Status c = "True") \/
  (apiextv1beta1.Type_ c = "NamesAccepted" /\ apiextv1beta1.Status c = "False").

Lemma crdReady_loop_iff conds :
  crdReady_loop conds = true <-> Exists v1_accepting conds.
Proof.
  induction conds as [|c conds IH]; simpl.
  - split; [done|]. by intros ?%Exists_nil.
  - rewrite Exists_cons, <- IH. unfold v1_accepting.
    unfold apiextv1.Established, apiextv1.NamesAccepted,
      apiextv1.ConditionTrue, apiextv1.ConditionFalse.
    destruct (String.eqb_spec (apiextv1.Type_ c) "Established") as [Ht|Ht];
      [rewrite Ht|
       destruct (String.eqb_spec (apiextv1.Type_ c) "NamesAccepted") as [Hn|Hn];
       [rewrite Hn|]].
    + destruct (String.eqb_spec (apiextv1.Status c) "True"); intuition congruence.
    + destruct (String.eqb_spec (apiextv1.Status c) "False"); intuition congruence.
    + intuition congruence.
Qed.

Lemma crdBetaReady_loop_iff conds :
  crdBetaReady_loop conds = true <-> Exists v1beta1_accepting conds.
Proof.
  induction conds as [|c conds IH]; simpl.
  - split; [done|]. by intros ?%Exists_nil.
  - rewrite Exists_cons, <- IH. unfold v1beta1_accepting.
    unfold apiextv1beta1.Established, apiextv1beta1.NamesAccepted,
      apiextv1beta1.ConditionTrue, apiextv1beta1.ConditionFalse.
    destruct (String.eqb_spec (apiextv1beta1.Type_ c) "Established") as [Ht|Ht];
      [rewrite Ht|
       destruct (String.eqb_spec (apiextv1beta1.Type_ c) "NamesAccepted") as [Hn|Hn];
       [rewrite Hn|]].
    + destruct (String.eqb_spec (apiextv1beta1.Status c) "True"); intuition congruence.
    + destruct (String.eqb_spec (apiextv1beta1.Status c) "False"); intuition congruence.
    + intuition congruence.
Qed.

(** C6: for a v1 and for a v1beta1 CRD the readiness predicate is true iff
    some condition is [Established] with status [True] or some condition
    is [NamesAccepted] with status [False]; a CRD whose only condition is
    [NamesAccepted=False] is ready, and a CRD without such a condition is
    not. *)
Theorem crd_ready_iff :
  (forall crd, crdReady crd = true <->
     (exists c, c ∈ apiextv1.Conditions crd /\
        apiextv1.Type_ c = "Established" /\ apiextv1.Status c = "True") \/
     (exists c, c ∈ apiextv1.Conditions crd /\
        apiextv1.Type_ c = "NamesAccepted" /\ apiextv1.Status c = "False")) /\
  (forall crd, crdBetaReady crd = true <->
     (exists c, c ∈ apiextv1beta1.Conditions crd /\
        apiextv1beta1.Type_ c = "Established" /\ apiextv1beta1.Status c = "True") \/
     (exists c, c ∈ apiextv1beta1.Conditions crd /\
        apiextv1beta1.Type_ c = "NamesAccepted" /\
        apiextv1beta1.Status c = "False")) /\
  crdReady {| apiextv1.Conditions :=
    [ {| apiextv1.Type_ := "NamesAccepted"; apiextv1.Status := "False" |} ] |} = true /\
  crdBetaReady {| apiextv1beta1.Conditions :=
    [ {| apiextv1beta1.Type_ := "NamesAccepted";
         apiextv1beta1.Status := "False" |} ] |} = true /\
  (forall crd, Forall (fun c => ~ v1_accepting c) (apiextv1.Conditions crd) ->
     crdReady crd = false) /\
  (forall crd, Forall (fun c => ~ v1beta1_accepting c) (apiextv1beta1.Conditions crd) ->
     crdBetaReady crd = false).
Proof.
  split_and!; try reflexivity.
  - intros crd. unfold crdReady. rewrite crdReady_loop_iff, Exists_exists.
    unfold v1_accepting. split.
    + intros (c & Hin & [H|H]); [left|right]; by exists c.
    + intros [(c & Hin & H)|(c & Hin & H)]; exists c; tauto.
  - intros crd. unfold crdBetaReady. rewrite crdBetaReady_loop_iff, Exists_exists.
    unfold v1beta1_accepting. split.
    + intros (c & Hin & [H|H]); [left|right]; by exists c.
    + intros [(c & Hin & H)|(c & Hin & H)]; exists c; tauto.
  - intros crd Hall. apply not_true_is_false. unfold crdReady.
    rewrite crdReady_loop_iff. by apply Forall_Exists_neg.
  - intros crd Hall. apply not_true_is_false. unfold crdBetaReady.
    rewrite crdBetaReady_loop_iff. by apply Forall_Exists_neg.
Qed.

(** The (type, status) pairs a CRD carries, in order. *)
Definition v1_pairs (crd : apiextv1.CustomResourceDefinition) : list (string * string) :=
  (fun c => (apiextv1.Type_ c, apiextv1.Status c)) <$> apiextv1.Conditions crd.

Definition v1beta1_pairs (crd : apiextv1beta1.CustomResourceDefinition)
    : list (string * string) :=
  (fun c => (apiextv1beta1.Type_ c, apiextv1beta1.Status c))
    <$> apiextv1beta1.Conditions crd.

(** C7: a v1 CRD and a v1beta1 CRD with the same ordered list of
    (condition type, condition status) pairs get the same verdict from
    [crdReady] and [crdBetaReady]. *)
Theorem crd_versions_agree crd crd' :
  v1_pairs crd = v1beta1_pairs crd' -> crdReady crd = crdBetaReady crd'.
Proof.
  unfold v1_pairs, v1beta1_pairs, crdReady, crdBetaReady.
  destruct crd as [conds], crd' as [conds']; simpl.
  revert conds'. induction conds as [|c conds IH]; intros [|c' conds'] Heq;
    try done.
  simpl in Heq. injection Heq as Ht Hs Hrest. simpl.
  rewrite Ht, Hs, (IH _ Hrest). done.
Qed.

Lemma crd_versions_agree_witness :
  let crd := {| apiextv1.Conditions :=
    [ {| apiextv1.Type_ := "Established"; apiextv1.Status := "Unknown" |};
      {| apiextv1.Type_ := "NamesAccepted"; apiextv1.Status := "False" |} ] |} in
  let crd' := {| apiextv1beta1.Conditions :=
    [ {| apiextv1beta1.Type_ := "Established"; apiextv1beta1.Status := "Unknown" |};
      {| apiextv1beta1.Type_ := "NamesAccepted";
         apiextv1beta1.Status := "False" |} ] |} in
  v1_pairs crd = v1beta1_pairs crd' /\ crdReady crd = crdBetaReady crd' /\
  crdReady crd = true.
Proof.
  intros crd crd'. split; [reflexivity|]. split; [|reflexivity].
  apply (crd_versions_agree crd crd'). reflexivity.
Defined.

(** ** Stateful sets *)

(** The replica count and the partition the predicate works with. *)
Definition sts_replicas (s : StatefulSet) : Z := default 1 (sts_Replicas s).

Definition sts_partition (s : StatefulSet) : Z :=
  default 0 (ru ← sts_RollingUpdate s; Partition ru).

Lemma sts_replicas_int32 s : wf_StatefulSet s -> in_int32 (sts_replicas s).
Proof.
  intros (Hr & _). unfold sts_replicas.
  destruct (sts_Replicas s); simpl in *; [done|]. unfold in_int32. lia.
Qed.

Lemma sts_partition_int32 s : wf_StatefulSet s -> in_int32 (sts_partition s).
Proof.
  intros (_ & Hp & _). unfold sts_partition.
  destruct (sts_RollingUpdate s) as [[[p|]]|]; simpl in *; try done;
    unfold in_int32; lia.
Qed.

Section StatefulSetFacts.

Context {Body LabelSelector : Type}.
Implicit Types client : Client (Body := Body) (LabelSelector := LabelSelector).

Lemma isStatefulSetReady_eq client object s :
  StatefulSets_Get client (tr_namespace object) (tr_name object) = Ok s ->
  wf_StatefulSet s ->
  isStatefulSetReady client object =
    ((sts_UpdatedReplicas s =? sts_replicas s - sts_partition s) &&
     (sts_ReadyReplicas s =? sts_replicas s), None).
Proof.
  intros Hget Hwf. unfold isStatefulSetReady. rewrite Hget.
  pose proof (int_sub_int32 _ _ (sts_replicas_int32 s Hwf)
                (sts_partition_int32 s Hwf)) as Hsub.
  unfold sts_replicas, sts_partition in *.
  destruct (sts_RollingUpdate s) as [[[p|]]|], (sts_Replicas s) as [n|];
    simpl in *; rewrite Hsub;
    by destruct (sts_UpdatedReplicas s =? _).
Qed.

(** C5: when the fetch succeeds, [isStatefulSetReady] returns [(true, nil)]
    iff [UpdatedReplicas = replicas - partition] and
    [ReadyReplicas = replicas], with [replicas] defaulting to 1 and
    [partition] to 0; it never returns an error then.  With replicas 3 and
    partition 1, [UpdatedReplicas = 2] and [ReadyReplicas = 3] give true,
    and [UpdatedReplicas = 1] gives false whatever [ReadyReplicas] is. *)
Theorem statefulset_ready_iff client object s :
  StatefulSets_Get client (tr_namespace object) (tr_name object) = Ok s ->
  wf_StatefulSet s ->
  (isStatefulSetReady client object = (true, None) <->
     sts_UpdatedReplicas s = sts_replicas s - sts_partition s /\
     sts_ReadyReplicas s = sts_replicas s) /\
  (exists b, isStatefulSetReady client object = (b, None)) /\
  (sts_Replicas s = Some 3 ->
   sts_RollingUpdate s = Some {| Partition := Some 1 |} ->
   (sts_UpdatedReplicas s = 2 -> sts_ReadyReplicas s = 3 ->
      isStatefulSetReady client object = (true, None)) /\
   (sts_UpdatedReplicas s = 1 ->
      isStatefulSetReady client object = (false, None))).
Proof.
  intros Hget Hwf. rewrite (isStatefulSetReady_eq client object s Hget Hwf).
  split_and!.
  - split.
    + intros [= Hb]. apply andb_true_iff in Hb as [Hu Hr]. lia.
    + intros [Hu Hr]. f_equal. apply andb_true_iff. lia.
  - eauto.
  - intros Hrep Hru. unfold sts_replicas, sts_partition.
    rewrite Hrep, Hru. simpl. split.
    + by intros -> ->.
    + by intros ->.
Qed.

End StatefulSetFacts.

(** A client that knows one stateful set and nothing else. *)
Definition sts_client (s : StatefulSet) : Client (Body := unit) (LabelSelector := unit) :=
  {| Deployments_Get := fun _ _ => Err (errorString "not found");
     StatefulSets_Get := fun _ _ => Ok s;
     ReplicaSets_List := fun _ _ => Ok [] |}.

Lemma statefulset_ready_iff_witness :
  let s := {| sts_Replicas := Some 3;
              sts_RollingUpdate := Some {| Partition := Some 1 |};
              sts_UpdatedReplicas := 2; sts_ReadyReplicas := 3 |} in
  let object := {| tr_name := "db"; tr_namespace := "default" |} in
  isStatefulSetReady (sts_client s) object = (true, None).
Proof.
  intros s object.
  assert (Hwf : wf_StatefulSet s).
  { unfold wf_StatefulSet, in_int32; simpl. lia. }
  destruct (statefulset_ready_iff (sts_client s) object s eq_refl Hwf)
    as (_ & _ & Hex).
  destruct (Hex eq_refl eq_refl) as [Hready _].
  apply Hready; reflexivity.
Defined.

(** ** Deployments: selection of the current replica set *)

(** Go compares strings byte by byte; [String.leb] is the non-strict
    version of [String.ltb]. *)
Lemma string_leb_ltb a b : String.leb a b = negb (String.ltb b a).
Proof.
  unfold String.leb, String.ltb. rewrite (String.compare_antisym a b).
  by destruct (String.compare b a).
Qed.

Lemma string_leb_trans a b c :
  String.leb a b = true -> String.leb b c = true -> String.leb a c = true.
Proof.
  unfold String.leb. revert b c.
  induction a as [|x a IH]; intros [|y b] [|z c]; simpl; try done.
  unfold Ascii.compare.
  destruct (N.compare_spec (Ascii.N_of_ascii x) (Ascii.N_of_ascii y)) as [Hxy|Hxy|Hxy],
    (N.compare_spec (Ascii.N_of_ascii y) (Ascii.N_of_ascii z)) as [Hyz|Hyz|Hyz],
    (N.compare_spec (Ascii.N_of_ascii x) (Ascii.N_of_ascii z)) as [Hxz|Hxz|Hxz];
    try done; try lia.
  apply IH.
Qed.

Section DeploymentFacts.

Context {Body : Type} (body_DeepEqual : Body -> Body -> bool).
Context {LabelSelector : Type}.
Context (LabelSelectorAsSelector : LabelSelector -> Result string).
Context `{!SortAlgorithm (Body := Body)}.

Implicit Types rs : ReplicaSet (Body := Body).
Implicit Types d : Deployment (Body := Body) (LabelSelector := LabelSelector).
Implicit Types client : Client (Body := Body) (LabelSelector := LabelSelector).

(** The order of the specification: creation timestamp ascending, ties
    broken by name ascending. *)
Definition rs_key_le rs rs' : Prop :=
  CreationTimestamp (rs_Meta rs) < CreationTimestamp (rs_Meta rs') \/
  (CreationTimestamp (rs_Meta rs) = CreationTimestamp (rs_Meta rs') /\
   String.leb (Name (rs_Meta rs)) (Name (rs_Meta rs')) = true).

(** The pod templates agree once the [pod-template-hash] label is deleted
    from both label maps. *)
Definition template_matches d rs : Prop :=
  delete "pod-template-hash" (tpl_Labels (rs_Template rs)) =
    delete "pod-template-hash" (tpl_Labels (d_Template d)) /\
  body_DeepEqual (tpl_Body (rs_Template rs)) (tpl_Body (d_Template d)) = true.

Definition owned_by d rs : Prop :=
  IsControlledBy (rs_Meta rs) (d_Meta d) = true.

#[global] Instance owned_by_dec d rs : Decision (owned_by d rs).
Proof. unfold owned_by. apply _. Defined.

Lemma Less_false_iff rs rs' : Less rs' rs = false <-> rs_key_le rs rs'.
Proof.
  unfold Less, rs_key_le. rewrite string_leb_ltb, negb_true_iff.
  destruct (Z.eqb_spec (CreationTimestamp (rs_Meta rs'))
              (CreationTimestamp (rs_Meta rs))) as [Heq|Hne].
  - rewrite Heq. split; [by right|]. intros [?|[_ ?]]; [lia|done].
  - rewrite Z.ltb_ge. split; [intros; left; lia|]. intros [?|[? _]]; lia.
Qed.

Lemma equalIgnoreHash_iff d rs :
  equalIgnoreHash body_DeepEqual (rs_Template rs) (d_Template d) = true <->
  template_matches d rs.
Proof.
  unfold equalIgnoreHash, Semantic_DeepEqual, template_matches; simpl.
  by rewrite andb_true_iff, bool_decide_eq_true.
Qed.

Lemma ownedReplicaSets_filter d (items : list ReplicaSet) :
  ownedReplicaSets d items = filter (owned_by d) items.
Proof.
  induction items as [|item items IH]; [done|]. simpl.
  rewrite filter_cons, IH.
  destruct (decide (owned_by d item)) as [Hd|Hd]; unfold owned_by in Hd.
  - by rewrite Hd.
  - by apply not_true_is_false in Hd as ->.
Qed.

Lemma scan_Some d (l : list ReplicaSet) rs :
  findNewReplicaSet_scan body_DeepEqual d l = Some rs ->
  exists pre post, l = pre ++ rs :: post /\ template_matches d rs /\
    Forall (fun rs' => ~ template_matches d rs') pre.
Proof.
  induction l as [|x l IH]; simpl; [done|].
  destruct (equalIgnoreHash _ _ _) eqn:E.
  - intros [= <-]. exists [], l. split_and!; [done| |constructor].
    by apply equalIgnoreHash_iff.
  - intros (pre & post & -> & Hm & Hpre)%IH.
    exists (x :: pre), post. split_and!; [done..|].
    constructor; [|done]. rewrite <- equalIgnoreHash_iff. congruence.
Qed.

Lemma scan_None d (l : list ReplicaSet) :
  findNewReplicaSet_scan body_DeepEqual d l = None <->
  Forall (fun rs' => ~ template_matches d rs') l.
Proof.
  induction l as [|x l IH]; simpl; [by split; [constructor|]|].
  rewrite Forall_cons, <- IH, <- equalIgnoreHash_iff.
  destruct (equalIgnoreHash _ _ _); split; try done; intros []; try done.
Qed.

Lemma sort_Sort_key_sorted (l : list ReplicaSet) :
  StronglySorted rs_key_le (sort_Sort l).
Proof.
  pose proof (sort_Sort_sorted l) as Hs.
  induction Hs as [|x xs Hxs IH Hall]; constructor; [done|].
  eapply Forall_impl; [exact Hall|]. intros y Hy. by apply Less_false_iff.
Qed.

(** What [getLatestReplicaSet] returns once the selector converted and
    the listing succeeded. *)
Lemma getLatestReplicaSet_listed d client selector all :
  LabelSelectorAsSelector (d_Selector d) = Ok selector ->
  ReplicaSets_List client (Namespace (d_Meta d)) selector = Ok all ->
  getLatestReplicaSet body_DeepEqual LabelSelectorAsSelector d client =
    (findNewReplicaSet_scan body_DeepEqual d (sort_Sort (filter (owned_by d) all)),
     None).
Proof.
  intros Hsel Hlist. unfold getLatestReplicaSet. rewrite Hsel, Hlist.
  rewrite ownedReplicaSets_filter.
  destruct (Nat.eqb_spec (length (filter (owned_by d) all)) 0) as [Hz|Hz];
    [|done].
  apply length_zero_iff_nil in Hz. rewrite Hz.
  pose proof (sort_Sort_perm []) as Hp. apply Permutation_nil_r in Hp.
  by rewrite Hp.
Qed.

Lemma rs_key_le_refl rs : rs_key_le rs rs.
Proof.
  right. split; [done|]. rewrite string_leb_ltb. unfold String.ltb.
  destruct (String.compare _ _) eqn:E; try done.
  pose proof (String.compare_antisym (Name (rs_Meta rs)) (Name (rs_Meta rs))) as Ha.
  rewrite E in Ha. done.
Qed.

(** What the scan over the sorted owned candidates can return. *)
Lemma getLatestReplicaSet_Some d (all : list ReplicaSet) rs :
  findNewReplicaSet_scan body_DeepEqual d (sort_Sort (filter (owned_by d) all)) =
    Some rs ->
  rs ∈ all /\ owned_by d rs /\ template_matches d rs.
Proof.
  intros (pre & post & Heq & Hm & _)%scan_Some.
  assert (Hin : rs ∈ filter (owned_by d) all).
  { rewrite <- (sort_Sort_perm (filter (owned_by d) all)), Heq. set_solver. }
  apply list_elem_of_filter in Hin as [Hown Hin]. done.
Qed.

Lemma getLatestReplicaSet_None d (all : list ReplicaSet) rs' :
  findNewReplicaSet_scan body_DeepEqual d (sort_Sort (filter (owned_by d) all)) =
    None ->
  rs' ∈ all -> owned_by d rs' -> ~ template_matches d rs'.
Proof.
  intros Hscan%scan_None Hin Hown. rewrite Forall_forall in Hscan.
  apply Hscan. rewrite (sort_Sort_perm (filter (owned_by d) all)).
  by apply list_elem_of_filter.
Qed.

(** C4: the selection keeps the candidates controller-owned by the
    deployment, arranges them by creation timestamp ascending with ties
    broken by name ascending, and returns the first one in that
    arrangement whose pod template equals the deployment's after the
    [pod-template-hash] label is deleted from both label maps; it returns
    nil when no candidate matches.  The selected replica set is hence an
    owned, matching candidate that no other owned, matching candidate
    precedes in that order. *)
Theorem current_replica_set_selection d client selector all :
  LabelSelectorAsSelector (d_Selector d) = Ok selector ->
  ReplicaSets_List client (Namespace (d_Meta d)) selector = Ok all ->
  exists sorted selected,
    getLatestReplicaSet body_DeepEqual LabelSelectorAsSelector d client =
      (selected, None) /\
    sorted ≡ₚ filter (owned_by d) all /\
    StronglySorted rs_key_le sorted /\
    match selected with
    | Some rs =>
        (exists pre post, sorted = pre ++ rs :: post /\
           template_matches d rs /\
           Forall (fun rs' => ~ template_matches d rs') pre) /\
        rs ∈ all /\ owned_by d rs /\
        (forall rs', rs' ∈ all -> owned_by d rs' -> template_matches d rs' ->
           rs_key_le rs rs')
    | None =>
        forall rs', rs' ∈ all -> owned_by d rs' -> ~ template_matches d rs'
    end.
Proof.
  intros Hsel Hlist.
  exists (sort_Sort (filter (owned_by d) all)),
    (findNewReplicaSet_scan body_DeepEqual d (sort_Sort (filter (owned_by d) all))).
  split; [by apply (getLatestReplicaSet_listed d client selector all)|].
  split; [apply sort_Sort_perm|].
  split; [apply sort_Sort_key_sorted|].
  pose proof (sort_Sort_perm (filter (owned_by d) all)) as Hperm.
  pose proof (sort_Sort_key_sorted (filter (owned_by d) all)) as Hsorted.
  destruct (findNewReplicaSet_scan _ _ _) as [rs|] eqn:Hscan.
  - destruct (getLatestReplicaSet_Some d all rs Hscan) as (Hin & Hown & _).
    destruct (scan_Some _ _ _ Hscan) as (pre & post & Heq & Hm & Hpre).
    split; [by exists pre, post|]. split_and!; [done..|].
    intros rs' Hin' Hown' Hm'.
    assert (Hs : rs' ∈ pre ++ rs :: post).
    { rewrite <- Heq, Hperm. by apply list_elem_of_filter. }
    rewrite Heq in Hsorted.
    apply elem_of_app in Hs as [Hs|Hs].
    + rewrite Forall_forall in Hpre. by destruct (Hpre rs' Hs).
    + apply elem_of_cons in Hs as [->|Hs]; [apply rs_key_le_refl|].
      apply StronglySorted_app in Hsorted as (_ & _ & Hsorted).
      apply StronglySorted_inv in Hsorted as [_ Hall].
      rewrite Forall_forall in Hall. by apply Hall.
  - intros rs' Hin' Hown'. by apply (getLatestReplicaSet_None d all rs' Hscan).
Qed.

#[global] Instance template_matches_dec d rs : Decision (template_matches d rs).
Proof. unfold template_matches. apply _. Defined.

(** The owned candidates whose template matches the deployment's. *)
Definition owned_matching d (all : list ReplicaSet) : list ReplicaSet :=
  filter (fun rs => owned_by d rs /\ template_matches d rs) all.

Lemma getLatestReplicaSet_unique d client selector all rs :
  LabelSelectorAsSelector (d_Selector d) = Ok selector ->
  ReplicaSets_List client (Namespace (d_Meta d)) selector = Ok all ->
  owned_matching d all = [rs] ->
  getLatestReplicaSet body_DeepEqual LabelSelectorAsSelector d client =
    (Some rs, None).
Proof.
  intros Hsel Hlist Hone.
  rewrite (getLatestReplicaSet_listed d client selector all Hsel Hlist).
  assert (Hrs : rs ∈ owned_matching d all) by (rewrite Hone; set_solver).
  apply list_elem_of_filter in Hrs as [[Hown Hm] Hin].
  destruct (findNewReplicaSet_scan _ _ _) as [rs'|] eqn:Hscan.
  - destruct (getLatestReplicaSet_Some d all rs' Hscan) as (Hin' & Hown' & Hm').
    assert (Hrs' : rs' ∈ owned_matching d all) by by apply list_elem_of_filter.
    rewrite Hone in Hrs'. apply list_elem_of_singleton in Hrs'. by subst.
  - by destruct (getLatestReplicaSet_None d all rs Hscan Hin Hown).
Qed.

Lemma getLatestReplicaSet_none d client selector all :
  LabelSelectorAsSelector (d_Selector d) = Ok selector ->
  ReplicaSets_List client (Namespace (d_Meta d)) selector = Ok all ->
  owned_matching d all = [] ->
  getLatestReplicaSet body_DeepEqual LabelSelectorAsSelector d client =
    (None, None).
Proof.
  intros Hsel Hlist Hnone.
  rewrite (getLatestReplicaSet_listed d client selector all Hsel Hlist).
  destruct (findNewReplicaSet_scan _ _ _) as [rs'|] eqn:Hscan; [|done].
  destruct (getLatestReplicaSet_Some d all rs' Hscan) as (Hin' & Hown' & Hm').
  assert (Hrs' : rs' ∈ owned_matching d all) by by apply list_elem_of_filter.
  rewrite Hnone in Hrs'. by apply elem_of_nil in Hrs'.
Qed.

Lemma getLatestReplicaSet_error d client rs e :
  getLatestReplicaSet body_DeepEqual LabelSelectorAsSelector d client <>
    (Some rs, Some e).
Proof.
  unfold getLatestReplicaSet.
  destruct (LabelSelectorAsSelector _); [|done].
  destruct (ReplicaSets_List _ _ _); [|done].
  by destruct (_ =? _)%nat.
Qed.

(** C3: when the deployment's fetch succeeds, [isDeploymentReady] returns
    [(true, nil)] iff the selected current replica set exists and has
    [ReadyReplicas >= 1].  With exactly one owned, template-matching
    replica set it returns true for [ReadyReplicas = 1] and false for
    [ReadyReplicas = 0]; with no owned, template-matching replica set it
    returns [(false, nil)]. *)
Theorem deployment_ready_iff client object d :
  Deployments_Get client (tr_namespace object) (tr_name object) = Ok d ->
  (isDeploymentReady body_DeepEqual LabelSelectorAsSelector client object =
     (true, None) <->
   exists rs,
     fst (getLatestReplicaSet body_DeepEqual LabelSelectorAsSelector d client) =
       Some rs /\
     rs_ReadyReplicas rs >= 1) /\
  (forall selector all,
     LabelSelectorAsSelector (d_Selector d) = Ok selector ->
     ReplicaSets_List client (Namespace (d_Meta d)) selector = Ok all ->
     (forall rs, owned_matching d all = [rs] ->
        (rs_ReadyReplicas rs = 1 ->
           isDeploymentReady body_DeepEqual LabelSelectorAsSelector client object =
             (true, None)) /\
        (rs_ReadyReplicas rs = 0 ->
           isDeploymentReady body_DeepEqual LabelSelectorAsSelector client object =
             (false, None))) /\
     (owned_matching d all = [] ->
        isDeploymentReady body_DeepEqual LabelSelectorAsSelector client object =
          (false, None))).
Proof.
  intros Hget. unfold isDeploymentReady. rewrite Hget. split.
  - pose proof (getLatestReplicaSet_error d client) as Herr.
    destruct (getLatestReplicaSet _ _ d client) as [[rs|] [e|]]; simpl.
    + by destruct (Herr rs e).
    + unfold expectedReadyReplicas. split.
      * intros [= Hb]. exists rs. split; [done|]. lia.
      * intros (rs' & [= <-] & Hr). do 2 f_equal. lia.
    + split; [done|]. by intros (? & ? & _).
    + split; [done|]. by intros (? & ? & _).
  - intros selector all Hsel Hlist. split.
    + intros rs Hone.
      rewrite (getLatestReplicaSet_unique d client selector all rs Hsel Hlist Hone).
      unfold expectedReadyReplicas. split; by intros ->.
    + intros Hnone.
      by rewrite (getLatestReplicaSet_none d client selector all Hsel Hlist Hnone).
Qed.

End DeploymentFacts.

(** *** An insertion sort meets the contract of [sort.Sort] *)

Section InsertionSort.

Context {Body : Type}.
Implicit Types rs : ReplicaSet (Body := Body).

Fixpoint insert_rs rs (l : list ReplicaSet) : list ReplicaSet :=
  match l with
  | [] => [rs]
  | rs' :: l' => if Less rs rs' then rs :: rs' :: l' else rs' :: insert_rs rs l'
  end.

Definition insertion_sort (l : list ReplicaSet) : list ReplicaSet :=
  foldr insert_rs [] l.

Lemma rs_key_le_trans rs1 rs2 rs3 :
  rs_key_le rs1 rs2 -> rs_key_le rs2 rs3 -> rs_key_le rs1 rs3.
Proof.
  unfold rs_key_le. intros [H1|[H1 N1]] [H2|[H2 N2]]; try (left; lia).
  right. split; [lia|]. by eapply string_leb_trans.
Qed.

Lemma rs_key_le_total rs1 rs2 : rs_key_le rs1 rs2 \/ rs_key_le rs2 rs1.
Proof.
  unfold rs_key_le.
  destruct (Z.lt_trichotomy (CreationTimestamp (rs_Meta rs1))
              (CreationTimestamp (rs_Meta rs2))) as [Hlt|[Heq|Hgt]];
    [by left; left| |by right; left].
  destruct (String.leb_total (Name (rs_Meta rs1)) (Name (rs_Meta rs2)));
    [left|right]; right; done.
Qed.

Lemma insert_rs_perm rs l : insert_rs rs l ≡ₚ rs :: l.
Proof.
  induction l as [|rs' l IH]; simpl; [done|].
  destruct (Less rs rs'); [done|]. rewrite IH. apply Permutation_swap.
Qed.

Lemma insert_rs_sorted rs l :
  StronglySorted rs_key_le l -> StronglySorted rs_key_le (insert_rs rs l).
Proof.
  induction 1 as [|rs' l Hl IH Hall]; simpl.
  - repeat constructor.
  - destruct (Less rs rs') eqn:E.
    + assert (Hle : rs_key_le rs rs').
      { destruct (rs_key_le_total rs rs') as [|Hge]; [done|].
        apply Less_false_iff in Hge. congruence. }
      constructor; [by constructor|]. constructor; [done|].
      eapply Forall_impl; [exact Hall|]. intros y Hy.
      by eapply rs_key_le_trans.
    + constructor; [done|]. rewrite insert_rs_perm.
      constructor; [by apply Less_false_iff|done].
Qed.

Lemma insertion_sort_perm l : insertion_sort l ≡ₚ l.
Proof.
  induction l as [|rs l IH]; simpl; [done|].
  by rewrite insert_rs_perm, IH.
Qed.

Lemma insertion_sort_sorted l :
  StronglySorted (fun a b => Less b a = false) (insertion_sort l).
Proof.
  assert (Hs : StronglySorted rs_key_le (insertion_sort l)).
  { induction l as [|rs l IH]; simpl; [constructor|]. by apply insert_rs_sorted. }
  induction Hs as [|x xs Hxs IH Hall]; constructor; [done|].
  eapply Forall_impl; [exact Hall|]. intros y Hy. by apply Less_false_iff.
Qed.

Definition insertion_SortAlgorithm : SortAlgorithm (Body := Body) :=
  {| sort_Sort := insertion_sort;
     sort_Sort_perm := insertion_sort_perm;
     sort_Sort_sorted := insertion_sort_sorted |}.

End InsertionSort.

(** *** A small cluster

    Deployment [web] owns [web-new] and [web-old]; [web-new] carries the
    deployment's template (up to the hash label), [web-old] an earlier one;
    [stray] matches the selector but belongs to another controller. *)
Module Demo.

Definition owner (uid : string) : OwnerReference :=
  {| or_UID := uid; or_Controller := Some true |}.

Definition tpl (hash image : string) : PodTemplateSpec (Body := string) :=
  {| tpl_Labels := <["pod-template-hash" := hash]> {["app" := "web"]};
     tpl_Body := image |}.

Definition web : Deployment (Body := string) (LabelSelector := string) :=
  {| d_Meta := {| Name := "web"; Namespace := "default"; UID := "uid-web";
                  CreationTimestamp := 100; OwnerReferences := [] |};
     d_Selector := "app=web";
     d_Template := {| tpl_Labels := {["app" := "web"]}; tpl_Body := "nginx:2" |} |}.

Definition replica_set (name uid : string) (created : Z) (ownerUID hash image : string)
    (ready : Z) : ReplicaSet (Body := string) :=
  {| rs_Meta := {| Name := name; Namespace := "default"; UID := uid;
                   CreationTimestamp := created;
                   OwnerReferences := [owner ownerUID] |};
     rs_Template := tpl hash image;
     rs_ReadyReplicas := ready |}.

Definition web_old : ReplicaSet := replica_set "web-old" "uid-1" 110 "uid-web" "aaa" "nginx:1" 2.
Definition web_new (ready : Z) : ReplicaSet :=
  replica_set "web-new" "uid-2" 120 "uid-web" "bbb" "nginx:2" ready.
Definition stray : ReplicaSet := replica_set "stray" "uid-3" 90 "uid-other" "ccc" "nginx:2" 1.

Definition selectorOf (s : string) : Result string := Ok s.

Definition cluster (ready : Z) : Client :=
  {| Deployments_Get := fun ns name =>
       if String.eqb name "web" then Ok web else Err (errorString "not found");
     StatefulSets_Get := fun _ _ => Err (errorString "not found");
     ReplicaSets_List := fun _ _ => Ok [web_new ready; stray; web_old] |}.

Definition object : trackerResource := {| tr_name := "web"; tr_namespace := "default" |}.

End Demo.

Example getLatestReplicaSet_demo :
  getLatestReplicaSet (H := insertion_SortAlgorithm) String.eqb Demo.selectorOf
    Demo.web (Demo.cluster 1) = (Some (Demo.web_new 1), None).
Proof. vm_compute. reflexivity. Qed.

Lemma current_replica_set_selection_witness :
  let d := Demo.web in
  let all := [Demo.web_new 1; Demo.stray; Demo.web_old] in
  exists sorted selected,
    getLatestReplicaSet (H := insertion_SortAlgorithm) String.eqb Demo.selectorOf
      d (Demo.cluster 1) = (selected, None) /\
    sorted ≡ₚ filter (owned_by d) all /\
    StronglySorted rs_key_le sorted /\
    match selected with
    | Some rs =>
        (exists pre post, sorted = pre ++ rs :: post /\
           template_matches String.eqb d rs /\
           Forall (fun rs' => ~ template_matches String.eqb d rs') pre) /\
        rs ∈ all /\ owned_by d rs /\
        (forall rs', rs' ∈ all -> owned_by d rs' ->
           template_matches String.eqb d rs' -> rs_key_le rs rs')
    | None =>
        forall rs', rs' ∈ all -> owned_by d rs' ->
          ~ template_matches String.eqb d rs'
    end.
Proof.
  exact (current_replica_set_selection (SortAlgorithm0 := insertion_SortAlgorithm)
           String.eqb Demo.selectorOf Demo.web (Demo.cluster 1) "app=web"
           [Demo.web_new 1; Demo.stray; Demo.web_old] eq_refl eq_refl).
Defined.

Lemma deployment_ready_iff_witness :
  isDeploymentReady (H := insertion_SortAlgorithm) String.eqb Demo.selectorOf
    (Demo.cluster 1) Demo.object = (true, None) /\
  isDeploymentReady (H := insertion_SortAlgorithm) String.eqb Demo.selectorOf
    (Demo.cluster 0) Demo.object = (false, None).
Proof.
  split.
  - destruct (deployment_ready_iff (SortAlgorithm0 := insertion_SortAlgorithm)
                String.eqb Demo.selectorOf (Demo.cluster 1) Demo.object Demo.web
                eq_refl) as [_ Hex].
    destruct (Hex "app=web" [Demo.web_new 1; Demo.stray; Demo.web_old]
                eq_refl eq_refl) as [Hone _].
    apply (Hone (Demo.web_new 1)); reflexivity.
  - destruct (deployment_ready_iff (SortAlgorithm0 := insertion_SortAlgorithm)
                String.eqb Demo.selectorOf (Demo.cluster 0) Demo.object Demo.web
                eq_refl) as [_ Hex].
    destruct (Hex "app=web" [Demo.web_new 0; Demo.stray; Demo.web_old]
                eq_refl eq_refl) as [Hone _].
    apply (Hone (Demo.web_new 0)); reflexivity.
Defined.

(** ** [equalIgnoreHash] leaves its arguments alone *)

Section HeapFacts.
Context {Body : Type} (body_DeepEqual : Body -> Body -> bool).
Implicit Types h : Heap (Body := Body).

Lemma fresh_tpl_None h : h_tpl h !! fresh (dom (h_tpl h)) = None.
Proof. apply not_elem_of_dom, is_fresh. Qed.

Lemma fresh_map_None h : h_map h !! fresh (dom (h_map h)) = None.
Proof. apply not_elem_of_dom, is_fresh. Qed.

(** [h'] has everything [h] has allocated, unchanged. *)
Definition extends h h' : Prop :=
  h_tpl h ⊆ h_tpl h' /\ h_map h ⊆ h_map h'.

Lemma deref_extends h h' p t : extends h h' -> deref h p = Some t -> deref h' p = Some t.
Proof.
  intros [Ht Hm]. unfold deref. intros Hd.
  destruct (h_tpl h !! p) as [o|] eqn:Eo; [|done]. simpl in Hd.
  rewrite (lookup_weaken _ _ _ _ Eo Ht). simpl.
  destruct (o_Labels o) as [lm|]; [|done].
  destruct (h_map h !! lm) as [m|] eqn:Em; [|done].
  by rewrite (lookup_weaken _ _ _ _ Em Hm).
Qed.

(** A template whose label map, if any, no template of [h] refers to. *)
Definition private_copy h h' p' t : Prop :=
  extends h h' /\ h_tpl h !! p' = None /\
  exists o, h_tpl h' !! p' = Some o /\ o_Body o = tpl_Body t /\
    match o_Labels o with
    | None => tpl_Labels t = ∅
    | Some lm => h_map h !! lm = None /\ h_map h' !! lm = Some (tpl_Labels t)
    end.

Lemma DeepCopy_spec h p t :
  deref h p = Some t ->
  exists p' h', DeepCopy h p = Some (p', h') /\ private_copy h h' p' t.
Proof.
  unfold deref, DeepCopy. intros Hd.
  destruct (h_tpl h !! p) as [[[lm|] body]|] eqn:Eo; simpl in *; [| |done].
  - destruct (h_map h !! lm) as [m|] eqn:Em; simpl in *; [|done].
    injection Hd as <-. eexists _, _. split; [done|].
    pose proof (fresh_tpl_None h). pose proof (fresh_map_None h).
    split_and!; simpl.
    + split; simpl; by apply insert_subseteq.
    + done.
    + eexists. rewrite lookup_insert_eq. split; [done|]. simpl.
      by rewrite lookup_insert_eq.
  - injection Hd as <-. eexists _, _. split; [done|].
    pose proof (fresh_tpl_None h).
    split_and!; simpl.
    + split; simpl; [by apply insert_subseteq|done].
    + done.
    + eexists. rewrite lookup_insert_eq. done.
Qed.

Lemma delete_Labels_nil h p key o :
  h_tpl h !! p = Some o -> o_Labels o = None -> delete_Labels h p key = Some h.
Proof. intros Ho Hl. unfold delete_Labels. rewrite Ho. simpl. by rewrite Hl. Qed.

Lemma delete_Labels_map h p key o lm m :
  h_tpl h !! p = Some o -> o_Labels o = Some lm -> h_map h !! lm = Some m ->
  delete_Labels h p key =
    Some {| h_tpl := h_tpl h; h_map := <[lm := delete key m]> (h_map h) |}.
Proof.
  intros Ho Hl Hm. unfold delete_Labels. rewrite Ho. simpl. rewrite Hl, Hm. done.
Qed.

Lemma deref_nil h p o :
  h_tpl h !! p = Some o -> o_Labels o = None ->
  deref h p = Some {| tpl_Labels := ∅; tpl_Body := o_Body o |}.
Proof. intros Ho Hl. unfold deref. rewrite Ho. simpl. by rewrite Hl. Qed.

Lemma deref_map h p o lm m :
  h_tpl h !! p = Some o -> o_Labels o = Some lm -> h_map h !! lm = Some m ->
  deref h p = Some {| tpl_Labels := m; tpl_Body := o_Body o |}.
Proof.
  intros Ho Hl Hm. unfold deref. rewrite Ho. simpl. rewrite Hl, Hm. done.
Qed.

Lemma equalIgnoreHash_ptr_spec h p1 p2 t1 t2 :
  deref h p1 = Some t1 -> deref h p2 = Some t2 ->
  exists h', equalIgnoreHash_ptr body_DeepEqual h p1 p2 =
               Some (equalIgnoreHash body_DeepEqual t1 t2, h') /\
    (forall p o, h_tpl h !! p = Some o -> h_tpl h' !! p = Some o) /\
    (forall lm m, h_map h !! lm = Some m -> h_map h' !! lm = Some m).
Proof.
  intros Hd1 Hd2. unfold equalIgnoreHash_ptr.
  destruct (DeepCopy_spec h p1 t1 Hd1)
    as (c1 & h1 & -> & Hext1 & Hnew1 & o1 & Ho1 & Hb1 & Hl1). simpl.
  destruct (DeepCopy_spec h1 p2 t2 (deref_extends _ _ _ _ Hext1 Hd2))
    as (c2 & h2 & -> & Hext2 & Hnew2 & o2 & Ho2 & Hb2 & Hl2). simpl.
  destruct Hext1 as [Ht1 Hm1], Hext2 as [Ht2 Hm2].
  pose proof (lookup_weaken _ _ _ _ Ho1 Ht2) as Ho1'.
  unfold equalIgnoreHash, Semantic_DeepEqual, delete_label,
    DefaultDeploymentUniqueLabelKey; simpl.
  destruct (o_Labels o1) as [lm1|] eqn:E1, (o_Labels o2) as [lm2|] eqn:E2.
  - destruct Hl1 as [Hf1 Hv1], Hl2 as [Hf2 Hv2].
    pose proof (lookup_weaken _ _ _ _ Hv1 Hm2) as Hv1'.
    assert (lm1 <> lm2) by congruence.
    rewrite (delete_Labels_map h2 c1 _ o1 lm1 _ Ho1' E1 Hv1'). simpl.
    erewrite (delete_Labels_map _ c2 _ o2 lm2 (tpl_Labels t2)); simpl;
      [|done|done|by rewrite lookup_insert_ne].
    unfold DeepEqual_ptr.
    erewrite (deref_map _ c1 o1 lm1); simpl;
      [|done|done|by rewrite lookup_insert_ne, lookup_insert_eq].
    erewrite (deref_map _ c2 o2 lm2); simpl;
      [|done|done|by rewrite lookup_insert_eq].
    rewrite Hb1, Hb2. eexists. split; [done|]. simpl. split.
    + intros p o Hp. by eapply lookup_weaken, Ht2; eapply lookup_weaken, Ht1.
    + intros lm m Hlm.
      pose proof (lookup_weaken _ _ _ _ Hlm Hm1) as Hlm1.
      rewrite !lookup_insert_ne by congruence.
      by eapply lookup_weaken.
  - destruct Hl1 as [Hf1 Hv1].
    pose proof (lookup_weaken _ _ _ _ Hv1 Hm2) as Hv1'.
    rewrite (delete_Labels_map h2 c1 _ o1 lm1 _ Ho1' E1 Hv1'). simpl.
    erewrite (delete_Labels_nil _ c2 _ o2); simpl; [|done|done].
    unfold DeepEqual_ptr.
    erewrite (deref_map _ c1 o1 lm1); simpl;
      [|done|done|by rewrite lookup_insert_eq].
    erewrite (deref_nil _ c2 o2); simpl; [|done|done].
    rewrite Hb1, Hb2, Hl2, delete_empty. eexists. split; [done|]. simpl. split.
    + intros p o Hp. by eapply lookup_weaken, Ht2; eapply lookup_weaken, Ht1.
    + intros lm m Hlm.
      rewrite !lookup_insert_ne by congruence.
      by eapply lookup_weaken, Hm2; eapply lookup_weaken, Hm1.
  - destruct Hl2 as [Hf2 Hv2].
    rewrite (delete_Labels_nil h2 c1 _ o1 Ho1' E1). simpl.
    erewrite (delete_Labels_map _ c2 _ o2 lm2 (tpl_Labels t2)); simpl;
      [|done|done|done].
    unfold DeepEqual_ptr.
    erewrite (deref_nil _ c1 o1); simpl; [|done|done].
    erewrite (deref_map _ c2 o2 lm2); simpl;
      [|done|done|by rewrite lookup_insert_eq].
    rewrite Hb1, Hb2, Hl1, delete_empty. eexists. split; [done|]. simpl. split.
    + intros p o Hp. by eapply lookup_weaken, Ht2; eapply lookup_weaken, Ht1.
    + intros lm m Hlm.
      pose proof (lookup_weaken _ _ _ _ Hlm Hm1) as Hlm1.
      rewrite !lookup_insert_ne by congruence.
      by eapply lookup_weaken.
  - rewrite (delete_Labels_nil h2 c1 _ o1 Ho1' E1). simpl.
    rewrite (delete_Labels_nil h2 c2 _ o2 Ho2 E2). simpl.
    unfold DeepEqual_ptr.
    erewrite (deref_nil _ c1 o1); simpl; [|done|done].
    erewrite (deref_nil _ c2 o2); simpl; [|done|done].
    rewrite Hb1, Hb2, Hl1, Hl2, delete_empty. eexists. split; [done|]. split.
    + intros p o Hp. by eapply lookup_weaken, Ht2; eapply lookup_weaken, Ht1.
    + intros lm m Hlm.
      by eapply lookup_weaken, Hm2; eapply lookup_weaken, Hm1.
Qed.

(** C9: [equalIgnoreHash] does not mutate its arguments.  Called on two
    pointers to templates (which may be the same pointer), it returns the
    verdict of the comparison with the [pod-template-hash] label deleted
    on both sides, every template and every label map allocated before the
    call is unchanged after it, and so both arguments still denote the
    templates they denoted before. *)
Theorem equalIgnoreHash_no_mutation h p1 p2 t1 t2 :
  deref h p1 = Some t1 -> deref h p2 = Some t2 ->
  exists b h',
    equalIgnoreHash_ptr body_DeepEqual h p1 p2 = Some (b, h') /\
    b = equalIgnoreHash body_DeepEqual t1 t2 /\
    (forall p o, h_tpl h !! p = Some o -> h_tpl h' !! p = Some o) /\
    (forall lm m, h_map h !! lm = Some m -> h_map h' !! lm = Some m) /\
    deref h' p1 = Some t1 /\ deref h' p2 = Some t2.
Proof.
  intros Hd1 Hd2.
  destruct (equalIgnoreHash_ptr_spec h p1 p2 t1 t2 Hd1 Hd2) as (h' & Hrun & Ht & Hm).
  exists (equalIgnoreHash body_DeepEqual t1 t2), h'.
  assert (Hext : extends h h').
  { split; apply map_subseteq_spec; auto. }
  split_and!; try done; by eapply deref_extends.
Qed.

End HeapFacts.

(** Two templates on a heap: the first with a label map that carries the
    hash label, the second with a nil label map. *)
Definition demo_heap : Heap (Body := string) :=
  {| h_tpl := {[ 1%positive := {| o_Labels := Some 1%positive; o_Body := "nginx:2" |};
                 2%positive := {| o_Labels := None; o_Body := "nginx:2" |} ]};
     h_map := {[ 1%positive := {[ "pod-template-hash" := "bbb" ]} ]} |}.

Lemma equalIgnoreHash_no_mutation_witness :
  exists b h',
    equalIgnoreHash_ptr String.eqb demo_heap 1%positive 2%positive = Some (b, h') /\
    b = true /\
    h_map h' !! 1%positive = Some {[ "pod-template-hash" := "bbb" ]} /\
    deref h' 1%positive =
      Some {| tpl_Labels := {[ "pod-template-hash" := "bbb" ]};
              tpl_Body := "nginx:2" |}.
Proof.
  destruct (equalIgnoreHash_no_mutation String.eqb demo_heap 1%positive 2%positive
              {| tpl_Labels := {[ "pod-template-hash" := "bbb" ]};
                 tpl_Body := "nginx:2" |}
              {| tpl_Labels := ∅; tpl_Body := "nginx:2" |} eq_refl eq_refl)
    as (b & h' & Hrun & Hb & _ & Hm & Hd1 & _).
  exists b, h'. split; [exact Hrun|]. split; [|split].
  - rewrite Hb. reflexivity.
  - apply Hm. reflexivity.
  - exact Hd1.
Defined.


(** ** The retry law *)

Import Runner.

Lemma countb_app {A} (p : A -> bool) (l1 l2 : list A) :
  countb p (l1 ++ l2) = (countb p l1 + countb p l2)%nat.
Proof. unfold countb. by rewrite filter_app, length_app. Qed.

Lemma countb_cons {A} (p : A -> bool) (x : A) (l : list A) :
  countb p (x :: l) = ((if p x then 1 else 0) + countb p l)%nat.
Proof.
  unfold countb. rewrite filter_cons.
  destruct (p x); by destruct (decide _).
Qed.

Lemma countb_none {A} (p : A -> bool) (l : list A) :
  Forall (fun x => p x = false) l -> countb p l = 0%nat.
Proof.
  induction 1 as [|x l Hx _ IH]; [done|]. by rewrite countb_cons, Hx, IH.
Qed.

Lemma failedAttempt_counts cause block :
  failedAttempt cause block ->
  countb isRunning block = 1%nat /\ countb isFailedAction block = 1%nat.
Proof.
  intros (res & stage & oks & -> & Hoks).
  assert (Hr : countb isRunning oks = 0%nat).
  { apply countb_none. eapply Forall_impl; [exact Hoks|]. by intros ? [? ->]. }
  assert (Hf : countb isFailedAction oks = 0%nat).
  { apply countb_none. eapply Forall_impl; [exact Hoks|]. by intros ? [? ->]. }
  rewrite !countb_cons, !countb_app, !countb_cons, Hr, Hf. done.
Qed.

Lemma failedRun_counts d n cause tr :
  failedRun d n cause tr ->
  countb isRunning tr = n /\ countb isFailedAction tr = n.
Proof.
  revert tr. induction n as [|n IH]; intros tr; [done|].
  destruct n as [|n].
  - intros (block & res & [Hr Hf]%failedAttempt_counts & ->).
    rewrite !countb_app, Hr, Hf. done.
  - intros (block & c & rest & [Hr Hf]%failedAttempt_counts & [Hr' Hf']%IH & ->).
    rewrite !countb_app, !countb_cons, Hr, Hf, Hr', Hf'. simpl. lia.
Qed.

Section RunnerFacts.

Context {World Provider : Type}.
Context (trackerWait :
  ComponentReconciler (Action World) Provider -> World -> option error * World).

Implicit Types r : ComponentReconciler (Action World) Provider.
Implicit Types st : RunState World.
Implicit Types cbh : CallbackHandler World.
Implicit Types w : World.

(** *** What a run does to the world

    The pipeline and the attempts once more, on worlds alone: what each
    step returns, the world it leaves and the events it stands for. *)

Definition stage_on (stage : Stage) (a : option (Action World)) (version : string)
    w : option error * World * list Event :=
  match a with
  | None => (None, w, [])
  | Some act => (fst (act version w), snd (act version w),
                 [EvAction stage (fst (act version w))])
  end.

Definition pipeline_on r (version : string) w : option error * World * list Event :=
  match stage_on PreInstall (preInstallAction r) version w with
  | (Some e, w1, ev1) => (Some e, w1, ev1)
  | (None, w1, ev1) =>
    match stage_on Install (installAction r) version w1 with
    | (Some e, w2, ev2) => (Some e, w2, ev1 ++ ev2)
    | (None, w2, ev2) =>
      match stage_on PostInstall (postInstallAction r) version w2 with
      | (e, w3, ev3) => (e, w3, ev1 ++ ev2 ++ ev3)
      end
    end
  end.

(** The pipeline fails on each of the [n] attempts of the run that starts
    in world [w]: attempt by attempt, [Running] is delivered through the
    handler and the pipeline, run in the world the delivery left, fails. *)
Fixpoint fails_on_attempts cbh r (version : string) (n : nat) w : Prop :=
  match n with
  | O => True
  | S n' =>
    match pipeline_on r version (snd (Callback cbh Running w)) with
    | (Some _, w', _) => fails_on_attempts cbh r version n' w'
    | (None, _, _) => False
    end
  end.

(** One failed attempt from world [w] to world [w']: the handler's
    [Callback] is called with [Running] in [w], its result is the one
    recorded, and the pipeline runs in the world that call left. *)
Definition failedAttemptAt cbh r (version : string) w (cause : error)
    (block : list Event) (w' : World) : Prop :=
  exists evs,
    pipeline_on r version (snd (Callback cbh Running w)) = (Some cause, w', evs) /\
    block = EvCallback Running (fst (Callback cbh Running w)) :: evs.

(** A run of [n] failed attempts from [w] to [w']: the attempts, the
    retry delay between them, and after the last one the handler's
    [Callback] called with [Failed]. *)
Fixpoint failedRunAt cbh r (version : string) (d : Duration) (n : nat) w
    (cause : error) (tr : list Event) (w' : World) : Prop :=
  match n with
  | O => False
  | S O => exists block w1,
      failedAttemptAt cbh r version w cause block w1 /\
      tr = block ++ [EvCallback Failed (fst (Callback cbh Failed w1))] /\
      w' = snd (Callback cbh Failed w1)
  | S n' => exists block c w1 rest,
      failedAttemptAt cbh r version w c block w1 /\
      failedRunAt cbh r version d n' w1 cause rest w' /\
      tr = block ++ EvSleep d :: rest
  end.

Lemma pipeline_on_validate r version w :
  pipeline_on (validate r) version w = pipeline_on r version w.
Proof.
  unfold pipeline_on. destruct (validate_actions r) as (-> & -> & ->). done.
Qed.

Lemma fails_on_attempts_validate cbh r version n w :
  fails_on_attempts cbh r version n w ->
  fails_on_attempts cbh (validate r) version n w.
Proof.
  revert w. induction n as [|n IH]; intros w; simpl; [done|].
  rewrite pipeline_on_validate.
  destruct (pipeline_on r version _) as [[[e|] w'] evs]; [|done]. apply IH.
Qed.

Lemma failedRunAt_validate cbh r version d n w cause tr w' :
  failedRunAt cbh (validate r) version d n w cause tr w' ->
  failedRunAt cbh r version d n w cause tr w'.
Proof.
  revert w tr. induction n as [|n IH]; intros w tr; [done|].
  destruct n as [|n].
  - intros (block & w1 & (evs & Hp & ->) & -> & ->).
    rewrite pipeline_on_validate in Hp.
    exists (EvCallback Running (fst (Callback cbh Running w)) :: evs), w1.
    split; [by exists evs|done].
  - intros (block & c & w1 & rest & (evs & Hp & ->) & Hrest & ->).
    rewrite pipeline_on_validate in Hp.
    exists (EvCallback Running (fst (Callback cbh Running w)) :: evs), c, w1, rest.
    split; [by exists evs|]. split; [by apply IH|done].
Qed.

(** The state-passing steps do what their counterparts on worlds say. *)
Lemma runStage_on stage a version st :
  runStage stage a version st =
    let '(e, w', evs) := stage_on stage a version (world st) in
    (e, {| world := w'; trace := trace st ++ evs |}).
Proof.
  unfold runStage, stage_on. destruct a as [act|].
  - by destruct (act version (world st)).
  - destruct st. simpl. by rewrite app_nil_r.
Qed.

Lemma pipeline_on_spec r version st :
  pipeline r version st =
    let '(e, w', evs) := pipeline_on r version (world st) in
    (e, {| world := w'; trace := trace st ++ evs |}).
Proof.
  unfold pipeline, pipeline_on. rewrite runStage_on.
  destruct (stage_on PreInstall _ version (world st)) as [[[e1|] w1] ev1]; [done|].
  rewrite runStage_on. simpl.
  destruct (stage_on Install _ version w1) as [[[e2|] w2] ev2]; simpl.
  { by rewrite <- app_assoc. }
  rewrite runStage_on. simpl.
  destruct (stage_on PostInstall _ version w2) as [[e3 w3] ev3]; simpl.
  by rewrite <- !app_assoc.
Qed.

Lemma stage_on_events stage a version w e w' evs :
  stage_on stage a version w = (e, w', evs) ->
  evs = [] /\ e = None \/ evs = [EvAction stage e].
Proof.
  unfold stage_on. destruct a as [act|]; intros [= <- <- <-]; auto.
Qed.

(** A failing pipeline leaves the actions that succeeded and then the one
    that failed, and nothing else. *)
Lemma pipeline_on_failed r version w e w' evs :
  pipeline_on r version w = (Some e, w', evs) ->
  exists stage oks,
    evs = oks ++ [EvAction stage (Some e)] /\
    Forall (fun ev => exists s, ev = EvAction s None) oks.
Proof.
  unfold pipeline_on.
  destruct (stage_on PreInstall _ version w) as [[[e1|] w1] ev1] eqn:E1.
  { intros [= -> <- <-].
    destruct (stage_on_events _ _ _ _ _ _ _ E1) as [[_ ?] | ->]; [done|].
    by exists PreInstall, []. }
  assert (H1 : Forall (fun ev => exists s, ev = EvAction s None) ev1).
  { destruct (stage_on_events _ _ _ _ _ _ _ E1) as [[-> _] | ->];
      repeat constructor; eauto. }
  destruct (stage_on Install _ version w1) as [[[e2|] w2] ev2] eqn:E2.
  { intros [= -> <- <-].
    destruct (stage_on_events _ _ _ _ _ _ _ E2) as [[_ ?] | ->]; [done|].
    by exists Install, ev1. }
  assert (H2 : Forall (fun ev => exists s, ev = EvAction s None) ev2).
  { destruct (stage_on_events _ _ _ _ _ _ _ E2) as [[-> _] | ->];
      repeat constructor; eauto. }
  destruct (stage_on PostInstall _ version w2) as [[e3 w3] ev3] eqn:E3.
  intros [= -> <- <-].
  destruct (stage_on_events _ _ _ _ _ _ _ E3) as [[_ ?] | ->]; [done|].
  exists PostInstall, (ev1 ++ ev2). rewrite app_assoc. split; [done|].
  by apply Forall_app.
Qed.

Lemma failedAttemptAt_shape cbh r version w cause block w' :
  failedAttemptAt cbh r version w cause block w' -> failedAttempt cause block.
Proof.
  intros (evs & Hp & ->).
  destruct (pipeline_on_failed _ _ _ _ _ _ Hp) as (stage & oks & -> & Hoks).
  by exists (fst (Callback cbh Running w)), stage, oks.
Qed.

Lemma failedRunAt_shape cbh r version d n w cause tr w' :
  failedRunAt cbh r version d n w cause tr w' -> failedRun d n cause tr.
Proof.
  revert w tr. induction n as [|n IH]; intros w tr; [done|].
  destruct n as [|n].
  - intros (block & w1 & Hb%failedAttemptAt_shape & -> & _).
    by exists block, (fst (Callback cbh Failed w1)).
  - intros (block & c & w1 & rest & Hb%failedAttemptAt_shape & Hrest%IH & ->).
    by exists block, c, rest.
Qed.

Lemma deliver_on cbh s st :
  deliver cbh s st =
    {| world := snd (Callback cbh s (world st));
       trace := trace st ++ [EvCallback s (fst (Callback cbh s (world st)))] |}.
Proof. unfold deliver, emit. by destruct (Callback cbh s (world st)). Qed.

Lemma attempt_failed r m cbh st cause w' evs :
  pipeline_on r (Version m) (snd (Callback cbh Running (world st))) =
    (Some cause, w', evs) ->
  attempt trackerWait r m cbh st =
    (Some cause,
     {| world := w';
        trace := trace st ++
                 EvCallback Running (fst (Callback cbh Running (world st))) :: evs |}).
Proof.
  intros Hp. unfold attempt. rewrite pipeline_on_spec, deliver_on. simpl.
  rewrite Hp. by rewrite <- app_assoc.
Qed.

Lemma attempts_failed r m cbh more st :
  fails_on_attempts cbh r (Version m) (S more) (world st) ->
  exists cause st' tr,
    attempts trackerWait r m cbh more st =
      (Some (RetriesExhaustedError cause), st') /\
    trace st' = trace st ++ tr /\
    failedRunAt cbh r (Version m) (retryDelay r) (S more) (world st) cause tr
      (world st').
Proof.
  revert st. induction more as [|more IH]; intros st Hfail;
    simpl in Hfail;
    destruct (pipeline_on r (Version m) (snd (Callback cbh Running (world st))))
      as [[[c|] w1] evs] eqn:Hp; try done;
    simpl; rewrite (attempt_failed r m cbh st c w1 evs Hp); simpl.
  - rewrite deliver_on. simpl.
    eexists c, _, _. split; [done|]. simpl. split.
    + rewrite <- app_assoc. done.
    + eexists _, w1. split; [by exists evs|done].
  - match goal with
    | |- context [attempts _ _ _ _ more ?s] =>
        destruct (IH s Hfail) as (cause & st' & rest & -> & Htr & Hrest)
    end.
    exists cause, st',
      ((EvCallback Running (fst (Callback cbh Running (world st))) :: evs) ++
       EvSleep (retryDelay r) :: rest).
    split; [done|]. split.
    + rewrite Htr. simpl. rewrite <- !app_assoc. done.
    + eexists _, c, w1, rest. split; [by exists evs|]. split; [exact Hrest|done].
Qed.

(** C1: with [maxRetries = n >= 1] and a pipeline that fails on each of
    the run's attempts, one run makes exactly [n] attempts.  Each attempt
    starts by calling the handler's [Callback] with [Running] (its result
    is the one recorded, and the attempt's actions run in the world that
    call left); the retry delay lies between attempts; after the last
    attempt the handler's [Callback] is called with [Failed], and the run
    returns a [RetriesExhaustedError] wrapping the cause of the last
    failure.  The trace holds exactly [n] deliveries of [Running] and [n]
    failed pipeline executions. *)
Theorem retry_law r m cbh w n :
  maxRetries r = n -> 1 <= n ->
  fails_on_attempts cbh r (Version m) (Z.to_nat n) w ->
  exists cause st',
    Run trackerWait r m cbh w = (Some (RetriesExhaustedError cause), st') /\
    failedRunAt cbh r (Version m) (retryDelay (validate r)) (Z.to_nat n) w cause
      (trace st') (world st') /\
    failedRun (retryDelay (validate r)) (Z.to_nat n) cause (trace st') /\
    countb isRunning (trace st') = Z.to_nat n /\
    countb isFailedAction (trace st') = Z.to_nat n.
Proof.
  intros Hn Hpos Hfail. unfold Run.
  assert (Hmax : maxRetries (validate r) = n).
  { rewrite validate_maxRetries. destruct (Z.leb_spec (maxRetries r) 0); lia. }
  rewrite Hmax.
  assert (Hsucc : S (Nat.pred (Z.to_nat n)) = Z.to_nat n) by lia.
  remember (Nat.pred (Z.to_nat n)) as more eqn:Hmore. clear Hmore.
  apply fails_on_attempts_validate in Hfail. rewrite <- Hsucc in Hfail.
  destruct (attempts_failed (validate r) m cbh more
              {| world := w; trace := [] |} Hfail)
    as (cause & st' & tr & -> & Htr & Hrun).
  simpl in Htr. subst tr. rewrite Hsucc in Hrun.
  apply failedRunAt_validate in Hrun.
  exists cause, st'. split; [done|]. split; [done|].
  pose proof (failedRunAt_shape _ _ _ _ _ _ _ _ _ Hrun) as Hshape.
  split; [done|]. by apply failedRun_counts in Hshape.
Qed.

End RunnerFacts.

(** *** A run whose install action always fails *)
Module RetryDemo.

(** The world counts the action invocations made so far. *)
Definition preOk : Action nat := fun _ w => (None, S w).
Definition installBoom : Action nat := fun _ w => (Some (errorString "boom"), S w).

Definition config : ComponentReconciler (Action nat) unit :=
  WithInstallAction (Some installBoom)
    (WithPreInstallAction (Some preOk)
       (Configure 0 3 0 (NewComponentReconciler None))).

Definition request : Reconciliation := {| Version := "2.0"; CallbackURL := "" |}.

Definition quiet : CallbackHandler nat := {| Callback := fun _ w => (None, w) |}.

Definition noWait (r : ComponentReconciler (Action nat) unit) (w : nat)
    : option error * nat := (None, w).

End RetryDemo.

Example retry_demo_run :
  let '(res, st) := Run RetryDemo.noWait RetryDemo.config RetryDemo.request
                      RetryDemo.quiet 0%nat in
  res = Some (RetriesExhaustedError (errorString "boom")) /\
  world st = 6%nat /\
  trace st =
    [ EvCallback Running None; EvAction PreInstall None;
      EvAction Install (Some (errorString "boom")); EvSleep 30000000000;
      EvCallback Running None; EvAction PreInstall None;
      EvAction Install (Some (errorString "boom")); EvSleep 30000000000;
      EvCallback Running None; EvAction PreInstall None;
      EvAction Install (Some (errorString "boom"));
      EvCallback Failed None ].
Proof. vm_compute. done. Qed.

(** *** A run that keeps a log

    The world is a log, newest entry first.  Every delivery is logged by
    the handler, which reports an error for [Running]; the pre-install
    action succeeds and the install action fails, both writing to the
    log. *)
Module RetryLog.

Definition preOk : Action (list string) := fun _ w => (None, "pre-install" :: w).
Definition installBoom : Action (list string) :=
  fun _ w => (Some (errorString "boom"), "install" :: w).

Definition config : ComponentReconciler (Action (list string)) unit :=
  WithInstallAction (Some installBoom)
    (WithPreInstallAction (Some preOk)
       (Configure 0 2 0 (NewComponentReconciler None))).

Definition statusName (s : Status) : string :=
  match s with Running => "running" | Success => "success" | Failed => "failed" end.

Definition logging : CallbackHandler (list string) :=
  {| Callback := fun s w =>
       (match s with
        | Running => Some (errorString "caller unreachable")
        | _ => None
        end, statusName s :: w) |}.

Definition noWait (r : ComponentReconciler (Action (list string)) unit)
    (w : list string) : option error * list string := (None, w).

End RetryLog.

Example retry_log_run :
  let '(res, st) := Run RetryLog.noWait RetryLog.config RetryDemo.request
                      RetryLog.logging [] in
  res = Some (RetriesExhaustedError (errorString "boom")) /\
  world st = [ "failed"; "install"; "pre-install"; "running";
               "install"; "pre-install"; "running" ] /\
  trace st =
    [ EvCallback Running (Some (errorString "caller unreachable"));
      EvAction PreInstall None;
      EvAction Install (Some (errorString "boom")); EvSleep 30000000000;
      EvCallback Running (Some (errorString "caller unreachable"));
      EvAction PreInstall None;
      EvAction Install (Some (errorString "boom"));
      EvCallback Failed None ].
Proof. vm_compute. done. Qed.

Lemma retry_law_witness :
  exists cause st',
    Run RetryLog.noWait RetryLog.config RetryDemo.request RetryLog.logging [] =
      (Some (RetriesExhaustedError cause), st') /\
    failedRunAt RetryLog.logging RetryLog.config (Version RetryDemo.request)
      (retryDelay (validate RetryLog.config)) (Z.to_nat 2) [] cause
      (trace st') (world st') /\
    failedRun (retryDelay (validate RetryLog.config)) (Z.to_nat 2) cause (trace st') /\
    countb isRunning (trace st') = Z.to_nat 2 /\
    countb isFailedAction (trace st') = Z.to_nat 2.
Proof.
  apply (retry_law RetryLog.noWait RetryLog.config RetryDemo.request
           RetryLog.logging [] 2).
  - reflexivity.
  - lia.
  - vm_compute. exact I.
Defined.

(** ** The HTTP trigger handler *)

Section RemoteFacts.

Context {Action Provider Handler : Type}.
Context (params : Request -> string -> Result string).
Context (unmarshal : string -> Reconciliation -> Result Reconciliation).
Context (newHandler : string -> bool -> option Handler * option error).
Context (run : ComponentReconciler Action Provider -> Reconciliation ->
               option Handler -> option error).

Implicit Types r : ComponentReconciler Action Provider.

Lemma sendError_fresh e :
  sendError emptyResponse e =
    {| rw_code := Some 500;
       rw_body := "Internal Server Error" +:+ nl +:+ nl +:+ Error e +:+ nl |}.
Proof. reflexivity. Qed.

(** [model] yields a request model or an error, never both or neither. *)
Lemma model_result req :
  (exists m, model params unmarshal req = (Some m, None)) \/
  (exists e, model params unmarshal req = (None, Some e)).
Proof.
  unfold model, modelForVersion.
  destruct (params req _); [|eauto].
  destruct (req_body req); [|eauto].
  destruct (String.eqb _ _); [eauto|].
  destruct (unmarshal _ _); eauto.
Qed.

(** When [model] fails, the error is written and the handler then reads
    [model.CallbackURL] through the nil model: no run starts. *)
Lemma handler_model_error r req e :
  model params unmarshal req = (None, Some e) ->
  handler params unmarshal newHandler run r emptyResponse req =
    {| h_resp := sendError emptyResponse e; h_started := [];
       h_outcome := Panicked |}.
Proof. unfold handler. by intros ->. Qed.

(** When the construction of the callback handler fails, the error is
    written and [start] is called all the same, with whatever handler the
    failed construction returned. *)
Lemma handler_callback_error r req m cbh e :
  model params unmarshal req = (Some m, None) ->
  newHandler (CallbackURL m) (debug r) = (cbh, Some e) ->
  handler params unmarshal newHandler run r emptyResponse req =
    {| h_resp := match run r m cbh with
                 | Some e' => sendError (sendError emptyResponse e) e'
                 | None => sendError emptyResponse e
                 end;
       h_started := [(m, cbh)];
       h_outcome := Returned |}.
Proof. unfold handler, start. by intros -> ->. Qed.

End RemoteFacts.

(** [json.Unmarshal] on the document [{}], which sets no field of the
    model; this decoder knows no other document. *)
Definition unmarshal_empty_object (b : string) (m : Reconciliation)
    : Result Reconciliation :=
  if String.eqb b "{}" then Ok m
  else Err (errorString "unexpected document").

(** [PUT /v1/run] with the body [{}]: the version segment is present, the
    body decodes, and the decoded model has an empty callback URL. *)
Definition request_without_callback : Request :=
  {| req_vars := {[ "version" := "1" ]}; req_body := Ok "{}" |}.

(** C2, at a request whose callback URL is empty: the handler answers 500
    with the status text, a blank line and the error detail, and then
    starts the run nevertheless, handing it no callback handler. *)
Theorem handler_runs_after_callback_error :
  forall (Action Provider : Type) (r : ComponentReconciler Action Provider)
         (absolute : string -> bool)
         (run : ComponentReconciler Action Provider -> Reconciliation ->
                option RemoteCallbackHandler -> option error),
    let out := handler params_String unmarshal_empty_object
                 (newRemoteCallbackHandler absolute) run r emptyResponse
                 request_without_callback in
    rw_code (h_resp out) = Some 500 /\
    (exists rest, rw_body (h_resp out) =
       "Internal Server Error" +:+ nl +:+ nl +:+ "empty callback URL" +:+ nl +:+ rest) /\
    h_started out = [({| Version := ""; CallbackURL := "" |}, None)] /\
    h_outcome out = Returned.
Proof.
  intros Action Provider r absolute run out. subst out.
  rewrite (handler_callback_error params_String unmarshal_empty_object
             (newRemoteCallbackHandler absolute) run r request_without_callback
             {| Version := ""; CallbackURL := "" |} None
             (errorString "empty callback URL") eq_refl eq_refl).
  simpl. destruct (run _ _ _) as [e'|]; simpl.
  - split; [done|]. split; [|done]. eexists. reflexivity.
  - split; [done|]. split; [|done]. exists "". reflexivity.
Qed.

(** * Further properties of the orchestrator *)

Import Entry.

Section ConfigurationFacts.

Context {Action Provider : Type}.
Implicit Types r : ComponentReconciler Action Provider.

Lemma validate_debug r : debug (validate r) = debug r.
Proof. unfold validate. repeat (case_match; simpl in * ); done. Qed.

Lemma validate_tracker r :
  interval (validate r) = interval r /\ timeout (validate r) = timeout r.
Proof. unfold validate. repeat (case_match; simpl in * ); done. Qed.

Lemma validate_tls r :
  sslCrtFile (serverOpts_ (validate r)) = sslCrtFile (serverOpts_ r) /\
  sslKeyFile (serverOpts_ (validate r)) = sslKeyFile (serverOpts_ r).
Proof. unfold validate. repeat (case_match; simpl in * ); done. Qed.

(** X1: [validate] changes nothing but the four fields it defaults: the
    debug flag, the three actions, the chart provider, the progress
    tracker's interval and timeout (which get no default) and the TLS
    files are what they were. *)
Theorem validate_keeps_other_fields r :
  debug (validate r) = debug r /\
  preInstallAction (validate r) = preInstallAction r /\
  installAction (validate r) = installAction r /\
  postInstallAction (validate r) = postInstallAction r /\
  chartProvider (validate r) = chartProvider r /\
  interval (validate r) = interval r /\
  timeout (validate r) = timeout r /\
  sslCrtFile (serverOpts_ (validate r)) = sslCrtFile (serverOpts_ r) /\
  sslKeyFile (serverOpts_ (validate r)) = sslKeyFile (serverOpts_ r).
Proof.
  unfold validate. repeat (case_match; simpl in * ); done.
Qed.

(** X2: after [Configure] the validated retry settings depend on the
    arguments of [Configure] alone: each positive argument is kept, each
    non-positive one becomes its default, whatever the configuration held
    before; the server port is the one the configuration had. *)
Theorem configure_then_validate r ui mr rd :
  let r' := validate (Configure ui mr rd r) in
  updateInterval r' = (if ui <=? 0 then 30000000000 else ui) /\
  maxRetries r' = (if mr <=? 0 then 5 else mr) /\
  retryDelay r' = (if rd <=? 0 then 30000000000 else rd) /\
  port (serverOpts_ r') = port (serverOpts_ (validate r)) /\
  interval r' = interval r /\ timeout r' = timeout r /\ debug r' = debug r.
Proof.
  intros r'. subst r'.
  rewrite validate_updateInterval, validate_maxRetries, validate_retryDelay,
    !validate_port.
  destruct (validate_tracker (Configure ui mr rd r)) as [-> ->].
  rewrite validate_debug. done.
Qed.

End ConfigurationFacts.

Section EntryFacts.

Context {Action Provider Handler Fct : Type}.
Context (CallbackFct : Reconciliation -> Fct).
Context (newLocal : Fct -> bool -> option Handler * option error).
Context (params : Request -> string -> Result string).
Context (unmarshal : string -> Reconciliation -> Result Reconciliation).
Context (newHandler : string -> bool -> option Handler * option error).
Context (run : ComponentReconciler Action Provider -> Reconciliation ->
               option Handler -> option error).

Implicit Types r : ComponentReconciler Action Provider.

(** X3: the server [StartRemote] starts always has a positive port: the
    one given to [WithServerConfiguration] when that is positive, 8080
    otherwise; the TLS files are the configured ones. *)
Theorem StartRemote_server r p crt key :
  let srv := StartRemote params unmarshal newHandler run
               (WithServerConfiguration p crt key r) in
  0 < Port srv /\
  Port srv = (if p <=? 0 then 8080 else p) /\
  SSLCrtFile srv = crt /\ SSLKeyFile srv = key.
Proof.
  intros srv. subst srv. unfold StartRemote; simpl.
  rewrite validate_port.
  destruct (validate_tls (WithServerConfiguration p crt key r)) as [-> ->].
  simpl. unfold defaultServerPort.
  destruct (Z.leb_spec p 0); split_and!; try done; lia.
Qed.

(** X4: [StartLocal] called with a nil model panics once [validate] has
    updated the receiver, and starts no run.  With a model it returns the
    error of a failed handler construction without starting a run;
    otherwise it starts exactly one run, with the model and the
    constructed handler, and returns that run's result.  The
    configuration a run is started with has positive [updateInterval],
    [maxRetries] and [retryDelay]. *)
Theorem StartLocal_runs r model :
  let out := StartLocal CallbackFct newLocal run r model in
  match model with
  | None => sl_outcome out = Panicked /\ sl_started out = []
  | Some m =>
      sl_outcome out = Returned /\
      match newLocal (CallbackFct m) (debug r) with
      | (_, Some err) => sl_err out = Some err /\ sl_started out = []
      | (cbh, None) =>
          sl_started out = [(validate r, m, cbh)] /\
          sl_err out = run (validate r) m cbh
      end
  end /\
  sl_receiver out = validate r /\
  (forall cfg m cbh, (cfg, m, cbh) ∈ sl_started out ->
     0 < updateInterval cfg /\ 0 < maxRetries cfg /\ 0 < retryDelay cfg).
Proof.
  intros out. subst out. unfold StartLocal.
  destruct (validate_positive r) as (Hu & Hm & _ & Hd).
  destruct model as [m|]; simpl.
  2:{ split_and!; try done. by intros ? ? ? ?%elem_of_nil. }
  rewrite validate_debug.
  destruct (newLocal _ _) as [cbh [err|]]; simpl.
  - split_and!; try done. by intros ? ? ? ?%elem_of_nil.
  - split_and!; try done.
    intros cfg m' cbh' [= -> -> ->]%list_elem_of_singleton. done.
Qed.

(** X5: [model] succeeds exactly when the version segment is present and
    not empty, the body can be read, and the body decodes into the zero
    model; it never returns both a model and an error, or neither. *)
Theorem model_succeeds_iff req m :
  (model params unmarshal req = (Some m, None) <->
   exists v b,
     params req "version" = Ok v /\ v <> "" /\ req_body req = Ok b /\
     unmarshal b {| Version := ""; CallbackURL := "" |} = Ok m) /\
  (forall e, model params unmarshal req <> (Some m, Some e)) /\
  model params unmarshal req <> (None, None).
Proof.
  unfold model, modelForVersion, paramContractVersion.
  destruct (params req "version") as [v|e1].
  2:{ split_and!; try done. split; [done|]. by intros (? & ? & ? & _). }
  destruct (req_body req) as [b|e2].
  2:{ split_and!; try done. split; [done|]. by intros (? & ? & _ & _ & ? & _). }
  destruct (String.eqb_spec v "") as [->|Hv].
  { split_and!; try done. split; [done|]. by intros (? & ? & [= <-] & ? & _). }
  destruct (unmarshal b _) as [m'|e3] eqn:Eu.
  - split_and!; try done. split.
    + intros [= <-]. by exists v, b.
    + intros (v' & b' & [= <-] & _ & [= <-] & Hm). rewrite Eu in Hm.
      by injection Hm as ->.
  - split_and!; try done. split; [done|].
    intros (v' & b' & [= <-] & _ & [= <-] & Hm). by rewrite Eu in Hm.
Qed.

(** X6: the errors of [model] in the order they are checked: a missing
    version segment is reported before an unreadable body, an unreadable
    body before an empty version, and an empty version before the body is
    decoded at all. *)
Theorem model_error_precedence req :
  (forall e, params req "version" = Err e ->
     model params unmarshal req = (None, Some e)) /\
  (forall v e, params req "version" = Ok v -> req_body req = Err e ->
     model params unmarshal req = (None, Some e)) /\
  (forall b, params req "version" = Ok "" -> req_body req = Ok b ->
     model params unmarshal req =
       (None, Some (errorString "contract version cannot be empty"))) /\
  (forall v b e, params req "version" = Ok v -> v <> "" -> req_body req = Ok b ->
     unmarshal b {| Version := ""; CallbackURL := "" |} = Err e ->
     model params unmarshal req = (None, Some e)).
Proof.
  unfold model, modelForVersion, paramContractVersion. split_and!.
  - by intros e ->.
  - by intros v e -> ->.
  - by intros b -> ->.
  - intros v b e -> Hv -> Hu.
    destruct (String.eqb_spec v ""); [done|]. by rewrite Hu.
Qed.

(** X7: on a fresh response the handler starts at most one run; it
    panics, and starts none, exactly when [model] yields no model; the
    status it writes is 500 or none at all; and it leaves the response
    untouched exactly when the model was built, the callback handler was
    constructed and the run returned no error. *)
Theorem handler_outcomes r req :
  let out := handler params unmarshal newHandler run r emptyResponse req in
  (length (h_started out) <= 1)%nat /\
  (h_outcome out = Panicked <-> fst (model params unmarshal req) = None) /\
  (h_started out = [] <-> fst (model params unmarshal req) = None) /\
  (rw_code (h_resp out) = None \/ rw_code (h_resp out) = Some 500) /\
  (h_resp out = emptyResponse <->
   exists m cbh,
     model params unmarshal req = (Some m, None) /\
     newHandler (CallbackURL m) (debug r) = (cbh, None) /\
     run r m cbh = None).
Proof.
  intros out. subst out. unfold handler, start.
  destruct (model_result params unmarshal req) as [[m Hm]|[e He]].
  - rewrite Hm. simpl.
    destruct (newHandler (CallbackURL m) (debug r)) as [cbh [e1|]] eqn:En;
      destruct (run r m cbh) as [e2|] eqn:Er; simpl;
      (split_and!; [lia|done|done|auto|]).
    + split; [done|]. intros (m' & cbh' & [= <-] & Hn' & _). congruence.
    + split; [done|]. intros (m' & cbh' & [= <-] & Hn' & _). congruence.
    + split; [done|]. intros (m' & cbh' & [= <-] & Hn' & Hr'). congruence.
    + split; [|done]. intros _. by exists m, cbh.
  - rewrite He. simpl. split_and!; [lia|done|done|auto|].
    split; [done|]. by intros (m' & cbh' & ? & _).
Qed.

(** X8: a request with a version whose body does not decode gets the
    500 response with the decoder's error; the handler then panics on the
    nil model and no run is started. *)
Theorem handler_decode_error r req v b e :
  params req "version" = Ok v -> v <> "" -> req_body req = Ok b ->
  unmarshal b {| Version := ""; CallbackURL := "" |} = Err e ->
  let out := handler params unmarshal newHandler run r emptyResponse req in
  h_resp out =
    {| rw_code := Some 500;
       rw_body := "Internal Server Error" +:+ nl +:+ nl +:+ Error e +:+ nl |} /\
  h_started out = [] /\ h_outcome out = Panicked.
Proof.
  intros Hv Hne Hb Hu out. subst out.
  assert (Hm : model params unmarshal req = (None, Some e)).
  { unfold model, modelForVersion, paramContractVersion. rewrite Hv, Hb.
    destruct (String.eqb_spec v ""); [done|]. by rewrite Hu. }
  rewrite (handler_model_error params unmarshal newHandler run r req _ Hm).
  done.
Qed.

(** X9: when the construction of the callback handler fails and the run
    started afterwards fails too, both errors are written to the one
    response: the status stays 500 and the body holds the two messages
    one after the other. *)
Theorem handler_two_errors r req m cbh e1 e2 :
  model params unmarshal req = (Some m, None) ->
  newHandler (CallbackURL m) (debug r) = (cbh, Some e1) ->
  run r m cbh = Some e2 ->
  let out := handler params unmarshal newHandler run r emptyResponse req in
  rw_code (h_resp out) = Some 500 /\
  rw_body (h_resp out) =
    ("Internal Server Error" +:+ nl +:+ nl +:+ Error e1 +:+ nl) +:+
    ("Internal Server Error" +:+ nl +:+ nl +:+ Error e2 +:+ nl) /\
  h_started out = [(m, cbh)].
Proof.
  intros Hm Hn Hr out. subst out.
  rewrite (handler_callback_error params unmarshal newHandler run r req m cbh e1
             Hm Hn), Hr.
  done.
Qed.

Lemma segment_app s seg rest : segment s = (seg, rest) -> s = seg +:+ rest.
Proof.
  revert seg rest. induction s as [|c s IH]; simpl; intros seg rest.
  - by intros [= <- <-].
  - destruct (Ascii.eqb c char_slash); [by intros [= <- <-]|].
    destruct (segment s) as [seg' rest']. intros [= <- <-]. simpl.
    by rewrite (IH seg' rest' eq_refl).
Qed.

Lemma routeVersion_Some path v :
  routeVersion path = Some v -> v <> "" /\ path = "/v" +:+ v +:+ "/run".
Proof.
  unfold routeVersion. destruct path as [|c1 [|c2 rest]]; try done.
  destruct (Ascii.eqb_spec c1 char_slash) as [->|]; [|done].
  destruct (Ascii.eqb_spec c2 char_v) as [->|]; [|done]. simpl.
  destruct (segment rest) as [seg tail] eqn:Eseg.
  destruct (String.eqb_spec seg "") as [|Hne]; [done|].
  destruct (String.eqb_spec tail "/run") as [->|]; [|done]. simpl.
  intros [= <-]. split; [done|]. by rewrite (segment_app _ _ _ Eseg).
Qed.

(** X22: the router of [StartRemote] calls the handler only for a PUT or
    POST request whose path is [/v<version>/run] with a version that is
    not empty; the handler then runs with the validated configuration and
    sees that version as the route variable.  Every other request is
    answered without the handler. *)
Theorem router_reaches_handler r w hreq out :
  Router_ (StartRemote params unmarshal newHandler run r) w hreq = Handled out ->
  exists v,
    v <> "" /\
    hr_path hreq = "/v" +:+ v +:+ "/run" /\
    (hr_method hreq = "PUT" \/ hr_method hreq = "POST") /\
    out = handler params unmarshal newHandler run (validate r) w
            {| req_vars := {[ "version" := v ]}; req_body := hr_body hreq |}.
Proof.
  unfold StartRemote, router; simpl.
  destruct (routeVersion (hr_path hreq)) as [v|] eqn:Ev; [|done].
  destruct (routeVersion_Some _ _ Ev) as [Hne Hpath].
  destruct (String.eqb_spec (hr_method hreq) "PUT") as [Hput|_]; simpl.
  - intros [= <-]. exists v. auto.
  - destruct (String.eqb_spec (hr_method hreq) "POST") as [Hpost|_]; [|done].
    intros [= <-]. exists v. auto.
Qed.

End EntryFacts.

(** [PUT /v1/run] with a body that is no JSON document, as the router
    hands it to the handler. *)
Lemma handler_decode_error_witness :
  let hreq := {| hr_method := "PUT"; hr_path := "/v1/run";
                 hr_body := Ok "no json" |} in
  exists out,
    router (Action := unit) (Provider := unit) params_String unmarshal_empty_object
      (newRemoteCallbackHandler (fun _ => true)) (fun _ _ _ => None)
      (NewComponentReconciler None) emptyResponse hreq = Handled out /\
    h_resp out =
      {| rw_code := Some 500;
         rw_body := "Internal Server Error" +:+ nl +:+ nl +:+
                    "unexpected document" +:+ nl |} /\
    h_started out = [] /\ h_outcome out = Panicked.
Proof.
  intros hreq. eexists. split; [reflexivity|].
  apply (handler_decode_error (Action := unit) (Provider := unit) params_String
           unmarshal_empty_object (newRemoteCallbackHandler (fun _ => true))
           (fun _ _ _ => None) (NewComponentReconciler None)
           {| req_vars := {[ "version" := "1" ]}; req_body := Ok "no json" |}
           "1" "no json" (errorString "unexpected document")).
  - reflexivity.
  - discriminate.
  - reflexivity.
  - reflexivity.
Defined.

Lemma router_reaches_handler_witness :
  let hreq := {| hr_method := "POST"; hr_path := "/v2.0/run"; hr_body := Ok "{}" |} in
  let r : ComponentReconciler unit unit := NewComponentReconciler None in
  let serve := handler params_String unmarshal_empty_object
                 (newRemoteCallbackHandler (fun _ => true)) (fun _ _ _ => None) in
  exists out,
    Router_ (StartRemote params_String unmarshal_empty_object
               (newRemoteCallbackHandler (fun _ => true)) (fun _ _ _ => None) r)
      emptyResponse hreq = Handled out /\
    exists v,
      v <> "" /\ hr_path hreq = "/v" +:+ v +:+ "/run" /\
      (hr_method hreq = "PUT" \/ hr_method hreq = "POST") /\
      out = serve (validate r) emptyResponse
              {| req_vars := {[ "version" := v ]}; req_body := hr_body hreq |}.
Proof.
  intros hreq r serve. eexists. split; [reflexivity|].
  apply (router_reaches_handler params_String unmarshal_empty_object
           (newRemoteCallbackHandler (fun _ => true)) (fun _ _ _ => None)
           r emptyResponse hreq).
  reflexivity.
Defined.

Example router_rejects :
  let route := router (Action := unit) (Provider := unit) params_String
                 unmarshal_empty_object (newRemoteCallbackHandler (fun _ => true))
                 (fun _ _ _ => None) (NewComponentReconciler None) emptyResponse in
  route {| hr_method := "PUT"; hr_path := "/v/run"; hr_body := Ok "{}" |} = NotRouted /\
  route {| hr_method := "GET"; hr_path := "/v1/run"; hr_body := Ok "{}" |} = NotRouted /\
  route {| hr_method := "PUT"; hr_path := "/v1/x/run"; hr_body := Ok "{}" |} = NotRouted /\
  route {| hr_method := "PUT"; hr_path := "/v1/run/"; hr_body := Ok "{}" |} = NotRouted.
Proof. vm_compute. done. Qed.

Lemma handler_two_errors_witness :
  let out := handler (Action := unit) (Provider := unit) params_String
               unmarshal_empty_object (newRemoteCallbackHandler (fun _ => true))
               (fun _ _ _ => Some (errorString "no callback handler"))
               (NewComponentReconciler None) emptyResponse
               request_without_callback in
  rw_code (h_resp out) = Some 500 /\
  rw_body (h_resp out) =
    ("Internal Server Error" +:+ nl +:+ nl +:+ "empty callback URL" +:+ nl) +:+
    ("Internal Server Error" +:+ nl +:+ nl +:+ "no callback handler" +:+ nl) /\
  h_started out = [({| Version := ""; CallbackURL := "" |}, None)].
Proof.
  apply (handler_two_errors (Action := unit) (Provider := unit) params_String
           unmarshal_empty_object (newRemoteCallbackHandler (fun _ => true))
           (fun _ _ _ => Some (errorString "no callback handler"))
           (NewComponentReconciler None) request_without_callback
           {| Version := ""; CallbackURL := "" |} None
           (errorString "empty callback URL")
           (errorString "no callback handler"));
    reflexivity.
Defined.

(** * Further properties of the readiness predicates *)

Import Workloads.

Lemma podConditions_loop_iff conds :
  podConditions_loop conds = true <->
  Forall (fun c => pc_Status c = "True") conds.
Proof.
  induction conds as [|c conds IH]; simpl; [by split; [constructor|]|].
  rewrite Forall_cons, <- IH. unfold ConditionTrue.
  destruct (String.eqb_spec (pc_Status c) "True"); simpl; intuition congruence.
Qed.

Lemma jobConditions_loop_iff conds :
  jobConditions_loop conds = true <->
  Forall (fun c => jc_Status c = "True") conds.
Proof.
  induction conds as [|c conds IH]; simpl; [by split; [constructor|]|].
  rewrite Forall_cons, <- IH. unfold ConditionTrue.
  destruct (String.eqb_spec (jc_Status c) "True"); simpl; intuition congruence.
Qed.

(** X10: when the fetch succeeds, [isPodReady] returns no error, and it
    returns true iff the pod's phase is [Running], every reported
    condition has status [True] (whatever its type) and the pod has no
    deletion timestamp. *)
Theorem pod_ready_iff client object pod :
  Pods_Get client (tr_namespace object) (tr_name object) = Ok pod ->
  (isPodReady client object = (true, None) <->
     pod_Phase pod = "Running" /\
     Forall (fun c => pc_Status c = "True") (pod_Conditions pod) /\
     pod_DeletionTimestamp pod = None) /\
  (exists b, isPodReady client object = (b, None)).
Proof.
  intros Hget. unfold isPodReady. rewrite Hget.
  rewrite <- podConditions_loop_iff. unfold PodRunning.
  destruct (String.eqb_spec (pod_Phase pod) "Running") as [Hp|Hp]; simpl.
  - destruct (podConditions_loop (pod_Conditions pod)); simpl.
    + destruct (pod_DeletionTimestamp pod); split; eauto;
        split; try done; by intros (_ & _ & ?).
    + split; eauto. split; [done|]. by intros (_ & ? & _).
  - split; eauto. split; [done|]. by intros (? & _).
Qed.

(** X11: when the fetch succeeds, [isDaemonSetReady] returns no error,
    and it returns true iff [UpdatedNumberScheduled] equals
    [DesiredNumberScheduled] and [NumberReady >= 1]; so a daemon set that
    is to run on no node is never ready. *)
Theorem daemonset_ready_iff client object ds :
  DaemonSets_Get client (tr_namespace object) (tr_name object) = Ok ds ->
  (isDaemonSetReady client object = (true, None) <->
     ds_UpdatedNumberScheduled ds = ds_DesiredNumberScheduled ds /\
     ds_NumberReady ds >= 1) /\
  (exists b, isDaemonSetReady client object = (b, None)) /\
  (ds_NumberReady ds <= 0 -> isDaemonSetReady client object = (false, None)).
Proof.
  intros Hget. unfold isDaemonSetReady, expectedReadyDaemonSet. rewrite Hget.
  destruct (Z.eqb_spec (ds_UpdatedNumberScheduled ds)
              (ds_DesiredNumberScheduled ds)) as [Hu|Hu]; simpl.
  - destruct (Z.leb_spec 1 (ds_NumberReady ds)) as [Hr|Hr]; split_and!; eauto.
    + split; [intros _; lia|done].
    + intros ?; lia.
    + split; [done|]. intros [_ ?]; lia.
  - split_and!; eauto. split; [done|]. by intros [? _].
Qed.

(** X12: when the fetch succeeds, [isJobReady] returns no error, and it
    returns true iff every reported condition has status [True]; the
    condition types play no part, so a job without conditions is ready,
    and so is a job whose one condition is [Failed] with status [True]. *)
Theorem job_ready_iff client object job :
  Jobs_Get client (tr_namespace object) (tr_name object) = Ok job ->
  (isJobReady client object = (true, None) <->
     Forall (fun c => jc_Status c = "True") (job_Conditions job)) /\
  (exists b, isJobReady client object = (b, None)) /\
  (job_Conditions job = [] -> isJobReady client object = (true, None)) /\
  (job_Conditions job = [ {| jc_Type := "Failed"; jc_Status := "True" |} ] ->
     isJobReady client object = (true, None)).
Proof.
  intros Hget. unfold isJobReady. rewrite Hget.
  rewrite <- jobConditions_loop_iff.
  split_and!.
  - destruct (jobConditions_loop _); simpl; split; done.
  - destruct (jobConditions_loop _); simpl; eauto.
  - by intros ->.
  - by intros ->.
Qed.

(** A cluster with one pod, one daemon set and one job. *)
Definition workload_client (pod : Pod) (ds : DaemonSet) (job : Job) : WorkloadClient :=
  {| Pods_Get := fun _ _ => Ok pod;
     DaemonSets_Get := fun _ _ => Ok ds;
     Jobs_Get := fun _ _ => Ok job |}.

Definition terminating_pod : Pod :=
  {| pod_Phase := "Running";
     pod_Conditions := [ {| pc_Type := "Ready"; pc_Status := "True" |} ];
     pod_DeletionTimestamp := Some 1700000000 |}.

Definition idle_daemonset : DaemonSet :=
  {| ds_UpdatedNumberScheduled := 0; ds_DesiredNumberScheduled := 0;
     ds_NumberReady := 0 |}.

Definition failed_job : Job :=
  {| job_Conditions := [ {| jc_Type := "Failed"; jc_Status := "True" |} ] |}.

Lemma pod_ready_iff_witness :
  let client := workload_client terminating_pod idle_daemonset failed_job in
  let object := {| tr_name := "p"; tr_namespace := "default" |} in
  isPodReady client object = (false, None).
Proof.
  intros client object.
  destruct (pod_ready_iff client object terminating_pod eq_refl) as [Hiff [b Hb]].
  rewrite Hb. destruct b; [|reflexivity].
  apply Hiff in Hb as (_ & _ & Hdel). discriminate Hdel.
Defined.

Lemma daemonset_ready_iff_witness :
  let client := workload_client terminating_pod idle_daemonset failed_job in
  let object := {| tr_name := "ds"; tr_namespace := "default" |} in
  isDaemonSetReady client object = (false, None).
Proof.
  intros client object.
  destruct (daemonset_ready_iff client object idle_daemonset eq_refl)
    as (_ & _ & Hidle).
  apply Hidle. simpl. lia.
Defined.

Lemma job_ready_iff_witness :
  let client := workload_client terminating_pod idle_daemonset failed_job in
  let object := {| tr_name := "job"; tr_namespace := "default" |} in
  isJobReady client object = (true, None).
Proof.
  intros client object.
  destruct (job_ready_iff client object failed_job eq_refl) as (_ & _ & _ & Hfailed).
  apply Hfailed. reflexivity.
Defined.


(** ** Deployments, once more *)

Section SelectionFacts.

Context {Body : Type} (body_DeepEqual : Body -> Body -> bool).
Context {LabelSelector : Type}.
Context (LabelSelectorAsSelector : LabelSelector -> Result string).

Implicit Types rs : ReplicaSet (Body := Body).
Implicit Types t : PodTemplateSpec (Body := Body).
Implicit Types d : Deployment (Body := Body) (LabelSelector := LabelSelector).
Implicit Types client : Client (Body := Body) (LabelSelector := LabelSelector).

Lemma Less_true_iff rs rs' : Less rs rs' = true <-> ~ rs_key_le rs' rs.
Proof. rewrite <- Less_false_iff. by destruct (Less rs rs'). Qed.

(** X15: [Less] is a strict weak order, as [sort.Sort] needs: nothing is
    less than itself, [Less] is transitive, and two replica sets neither
    of which is less than the other have the same creation timestamp and
    the same name. *)
Theorem Less_strict_weak_order :
  (forall rs, Less rs rs = false) /\
  (forall rs1 rs2 rs3,
     Less rs1 rs2 = true -> Less rs2 rs3 = true -> Less rs1 rs3 = true) /\
  (forall rs1 rs2,
     Less rs1 rs2 = false /\ Less rs2 rs1 = false <->
     CreationTimestamp (rs_Meta rs1) = CreationTimestamp (rs_Meta rs2) /\
     Name (rs_Meta rs1) = Name (rs_Meta rs2)).
Proof.
  split_and!.
  - intros rs. apply Less_false_iff, rs_key_le_refl.
  - intros rs1 rs2 rs3. rewrite !Less_true_iff. intros H21 H32 H31.
    destruct (rs_key_le_total rs1 rs2) as [H12|?]; [|done].
    apply H32. by eapply rs_key_le_trans.
  - intros rs1 rs2. rewrite !Less_false_iff. unfold rs_key_le. split.
    + intros [[H1|[H1 N1]] [H2|[H2 N2]]]; try lia.
      split; [done|]. by apply String.leb_antisym.
    + intros [Ht Hn]. rewrite Ht, Hn.
      pose proof (rs_key_le_refl rs2) as [?|[_ Hrefl]]; [lia|].
      split; right; done.
Qed.

(** X16: if no two owned candidates share both creation timestamp and
    name, the selected replica set depends neither on the sorting
    algorithm behind [sort.Sort] nor on the order in which the cluster
    lists the replica sets. *)
Theorem selection_independent_of_sort (S1 S2 : SortAlgorithm (Body := Body))
    d client1 client2 selector all1 all2 :
  LabelSelectorAsSelector (d_Selector d) = Ok selector ->
  ReplicaSets_List client1 (Namespace (d_Meta d)) selector = Ok all1 ->
  ReplicaSets_List client2 (Namespace (d_Meta d)) selector = Ok all2 ->
  all1 ≡ₚ all2 ->
  (forall rs rs', rs ∈ all1 -> rs' ∈ all1 -> owned_by d rs -> owned_by d rs' ->
     CreationTimestamp (rs_Meta rs) = CreationTimestamp (rs_Meta rs') ->
     Name (rs_Meta rs) = Name (rs_Meta rs') -> rs = rs') ->
  getLatestReplicaSet (H := S1) body_DeepEqual LabelSelectorAsSelector d client1 =
  getLatestReplicaSet (H := S2) body_DeepEqual LabelSelectorAsSelector d client2.
Proof.
  intros Hsel Hl1 Hl2 Hperm Hkeys.
  rewrite (getLatestReplicaSet_listed (SortAlgorithm0 := S1) body_DeepEqual
             LabelSelectorAsSelector d client1 selector all1 Hsel Hl1).
  rewrite (getLatestReplicaSet_listed (SortAlgorithm0 := S2) body_DeepEqual
             LabelSelectorAsSelector d client2 selector all2 Hsel Hl2).
  do 2 f_equal.
  apply (StronglySorted_unique_strong rs_key_le).
  - intros x1 x2 Hx1 Hx2 H12 H21.
    rewrite (sort_Sort_perm (SortAlgorithm := S1)) in Hx1.
    rewrite (sort_Sort_perm (SortAlgorithm := S2)), <- Hperm in Hx2.
    apply list_elem_of_filter in Hx1 as [Ho1 Hi1].
    apply list_elem_of_filter in Hx2 as [Ho2 Hi2].
    destruct H12 as [H12|[H12 N12]], H21 as [H21|[H21 N21]]; try lia.
    apply Hkeys; try done. by apply String.leb_antisym.
  - apply sort_Sort_key_sorted.
  - apply sort_Sort_key_sorted.
  - rewrite (sort_Sort_perm (SortAlgorithm := S1)),
      (sort_Sort_perm (SortAlgorithm := S2)). by rewrite Hperm.
Qed.

(** X17: [equalIgnoreHash] holds exactly when the two label maps agree
    on every key other than [pod-template-hash] and the rest of the
    templates is deeply equal; whatever value either side carries under
    [pod-template-hash] makes no difference. *)
Theorem equalIgnoreHash_iff_other_labels t1 t2 :
  (equalIgnoreHash body_DeepEqual t1 t2 = true <->
     (forall key, key <> "pod-template-hash" ->
        tpl_Labels t1 !! key = tpl_Labels t2 !! key) /\
     body_DeepEqual (tpl_Body t1) (tpl_Body t2) = true) /\
  (forall v1 v2,
     equalIgnoreHash body_DeepEqual
       {| tpl_Labels := <["pod-template-hash" := v1]> (tpl_Labels t1);
          tpl_Body := tpl_Body t1 |}
       {| tpl_Labels := <["pod-template-hash" := v2]> (tpl_Labels t2);
          tpl_Body := tpl_Body t2 |} =
     equalIgnoreHash body_DeepEqual t1 t2).
Proof.
  unfold equalIgnoreHash, Semantic_DeepEqual, delete_label,
    DefaultDeploymentUniqueLabelKey; simpl. split.
  - rewrite andb_true_iff, bool_decide_eq_true.
    assert (Hmap : delete "pod-template-hash" (tpl_Labels t1) =
                   delete "pod-template-hash" (tpl_Labels t2) <->
                   forall key, key <> "pod-template-hash" ->
                     tpl_Labels t1 !! key = tpl_Labels t2 !! key).
    { split.
      - intros Heq key Hkey.
        rewrite <- (lookup_delete_ne (tpl_Labels t1) "pod-template-hash" key),
          <- (lookup_delete_ne (tpl_Labels t2) "pod-template-hash" key) by done.
        by rewrite Heq.
      - intros Hall. apply map_eq. intros key.
        destruct (decide ("pod-template-hash" = key)) as [<-|Hne].
        + by rewrite !lookup_delete_eq.
        + rewrite !lookup_delete_ne by done. apply Hall. congruence. }
    by rewrite Hmap.
  - intros v1 v2. by rewrite !delete_insert_eq.
Qed.

(** X21: when the deep equality on the rest of a template is an
    equivalence, so is [equalIgnoreHash]: every template matches itself,
    and matching is symmetric and transitive. *)
Theorem equalIgnoreHash_equivalence :
  (forall b, body_DeepEqual b b = true) ->
  (forall b1 b2, body_DeepEqual b1 b2 = body_DeepEqual b2 b1) ->
  (forall b1 b2 b3, body_DeepEqual b1 b2 = true -> body_DeepEqual b2 b3 = true ->
     body_DeepEqual b1 b3 = true) ->
  (forall t, equalIgnoreHash body_DeepEqual t t = true) /\
  (forall t1 t2,
     equalIgnoreHash body_DeepEqual t1 t2 = equalIgnoreHash body_DeepEqual t2 t1) /\
  (forall t1 t2 t3,
     equalIgnoreHash body_DeepEqual t1 t2 = true ->
     equalIgnoreHash body_DeepEqual t2 t3 = true ->
     equalIgnoreHash body_DeepEqual t1 t3 = true).
Proof.
  intros Hrefl Hsym Htrans.
  unfold equalIgnoreHash, Semantic_DeepEqual, delete_label; simpl. split_and!.
  - intros t. rewrite Hrefl, andb_true_r. by apply bool_decide_eq_true.
  - intros t1 t2. rewrite (Hsym (tpl_Body t1)). f_equal.
    apply bool_decide_ext. split; by intros ->.
  - intros t1 t2 t3. rewrite !andb_true_iff, !bool_decide_eq_true.
    intros [-> H12] [-> H23]. split; [done|]. by eapply Htrans.
Qed.

(** X19: [isDeploymentReady] returns an error exactly when fetching the
    deployment, converting its label selector or listing the replica sets
    fails, and it is that error; the selection among the listed replica
    sets cannot fail. *)
Theorem deployment_error_iff `{!SortAlgorithm (Body := Body)} client object e :
  snd (isDeploymentReady body_DeepEqual LabelSelectorAsSelector client object) =
    Some e <->
  Deployments_Get client (tr_namespace object) (tr_name object) = Err e \/
  exists d,
    Deployments_Get client (tr_namespace object) (tr_name object) = Ok d /\
    (LabelSelectorAsSelector (d_Selector d) = Err e \/
     exists selector,
       LabelSelectorAsSelector (d_Selector d) = Ok selector /\
       ReplicaSets_List client (Namespace (d_Meta d)) selector = Err e).
Proof.
  unfold isDeploymentReady.
  destruct (Deployments_Get _ _ _) as [d|e0] eqn:Eg; simpl.
  2:{ split; [intros [= ->]; by left|].
      intros [Hg|(d & Hg & _)]; congruence. }
  destruct (LabelSelectorAsSelector (d_Selector d)) as [selector|e1] eqn:Es.
  2:{ unfold getLatestReplicaSet. rewrite Es. simpl. split.
      - intros [= ->]. right. exists d. split; [done|]. by left.
      - intros [Hg|(d' & Hg & [Hs|(s' & Hs & _)])]; simplify_eq; congruence. }
  destruct (ReplicaSets_List client (Namespace (d_Meta d)) selector)
    as [all|e2] eqn:El.
  2:{ unfold getLatestReplicaSet. rewrite Es, El. simpl. split.
      - intros [= ->]. right. exists d. split; [done|]. right. by exists selector.
      - intros [Hg|(d' & Hg & [Hs|(s' & Hs & Hl)])]; simplify_eq; congruence. }
  rewrite (getLatestReplicaSet_listed body_DeepEqual LabelSelectorAsSelector
             d client selector all Es El).
  destruct (findNewReplicaSet_scan _ _ _); simpl;
    (split; [done|]);
    intros [Hg|(d' & Hg & [Hs|(s' & Hs & Hl)])]; simplify_eq; congruence.
Qed.

(** X20: a listed replica set that is not controlled by the deployment
    never influences the selection: dropping it from the listing yields
    the same result. *)
Theorem foreign_replica_set_ignored `{!SortAlgorithm (Body := Body)}
    d client1 client2 selector all1 all2 rs :
  LabelSelectorAsSelector (d_Selector d) = Ok selector ->
  ReplicaSets_List client1 (Namespace (d_Meta d)) selector = Ok (all1 ++ rs :: all2) ->
  ReplicaSets_List client2 (Namespace (d_Meta d)) selector = Ok (all1 ++ all2) ->
  IsControlledBy (rs_Meta rs) (d_Meta d) = false ->
  getLatestReplicaSet body_DeepEqual LabelSelectorAsSelector d client1 =
  getLatestReplicaSet body_DeepEqual LabelSelectorAsSelector d client2.
Proof.
  intros Hsel Hl1 Hl2 Hforeign.
  rewrite (getLatestReplicaSet_listed body_DeepEqual LabelSelectorAsSelector
             d client1 selector _ Hsel Hl1),
    (getLatestReplicaSet_listed body_DeepEqual LabelSelectorAsSelector
       d client2 selector _ Hsel Hl2).
  rewrite !filter_app, filter_cons.
  destruct (decide (owned_by d rs)) as [Ho|Ho]; [|done].
  unfold owned_by in Ho. congruence.
Qed.

End SelectionFacts.

(** *** A merge sort meets the contract of [sort.Sort] too *)

Section MergeSort.

Context {Body : Type}.

Definition not_after (a b : ReplicaSet (Body := Body)) : Prop := Less b a = false.

#[local] Instance not_after_dec a b : Decision (not_after a b).
Proof. unfold not_after. apply _. Defined.

#[local] Instance not_after_trans : Transitive not_after.
Proof.
  intros a b c. unfold not_after. rewrite !Less_false_iff.
  apply rs_key_le_trans.
Qed.

#[local] Instance not_after_total : Total not_after.
Proof.
  intros a b. unfold not_after. rewrite !Less_false_iff.
  apply rs_key_le_total.
Qed.

Definition merge_SortAlgorithm : SortAlgorithm (Body := Body) :=
  {| sort_Sort := merge_sort not_after;
     sort_Sort_perm := merge_sort_Permutation not_after;
     sort_Sort_sorted := StronglySorted_merge_sort not_after |}.

End MergeSort.

Definition relisted_cluster : Client :=
  {| Deployments_Get := fun ns name =>
       if String.eqb name "web" then Ok Demo.web else Err (errorString "not found");
     StatefulSets_Get := fun _ _ => Err (errorString "not found");
     ReplicaSets_List := fun _ _ => Ok [Demo.web_old; Demo.web_new 1; Demo.stray] |}.

Definition tidy_cluster : Client :=
  {| Deployments_Get := fun ns name =>
       if String.eqb name "web" then Ok Demo.web else Err (errorString "not found");
     StatefulSets_Get := fun _ _ => Err (errorString "not found");
     ReplicaSets_List := fun _ _ => Ok [Demo.web_new 1; Demo.web_old] |}.

Lemma selection_independent_of_sort_witness :
  getLatestReplicaSet (H := insertion_SortAlgorithm) String.eqb Demo.selectorOf
    Demo.web (Demo.cluster 1) =
  getLatestReplicaSet (H := merge_SortAlgorithm) String.eqb Demo.selectorOf
    Demo.web relisted_cluster.
Proof.
  apply (selection_independent_of_sort String.eqb Demo.selectorOf
           insertion_SortAlgorithm merge_SortAlgorithm Demo.web
           (Demo.cluster 1) relisted_cluster "app=web"
           [Demo.web_new 1; Demo.stray; Demo.web_old]
           [Demo.web_old; Demo.web_new 1; Demo.stray]).
  - reflexivity.
  - reflexivity.
  - reflexivity.
  - apply Permutation_sym, (Permutation_cons_app [_; _] []). reflexivity.
  - intros rs rs' Hrs Hrs' _ _ Hts _.
    apply elem_of_cons in Hrs as [->|Hrs]; [|apply elem_of_cons in Hrs as [->|Hrs];
      [|apply list_elem_of_singleton in Hrs as ->]];
    (apply elem_of_cons in Hrs' as [->|Hrs']; [|apply elem_of_cons in Hrs' as [->|Hrs'];
      [|apply list_elem_of_singleton in Hrs' as ->]]);
    first [reflexivity | discriminate Hts].
Defined.

Lemma equalIgnoreHash_equivalence_witness :
  equalIgnoreHash String.eqb (rs_Template (Demo.web_new 1)) (d_Template Demo.web) =
  equalIgnoreHash String.eqb (d_Template Demo.web) (rs_Template (Demo.web_new 1)).
Proof.
  destruct (equalIgnoreHash_equivalence String.eqb) as (_ & Hsym & _).
  - apply String.eqb_refl.
  - apply String.eqb_sym.
  - intros b1 b2 b3 H12%String.eqb_eq H23%String.eqb_eq.
    apply String.eqb_eq. congruence.
  - apply Hsym.
Defined.

Lemma foreign_replica_set_ignored_witness :
  getLatestReplicaSet (H := insertion_SortAlgorithm) String.eqb Demo.selectorOf
    Demo.web (Demo.cluster 1) =
  getLatestReplicaSet (H := insertion_SortAlgorithm) String.eqb Demo.selectorOf
    Demo.web tidy_cluster.
Proof.
  apply (foreign_replica_set_ignored (SortAlgorithm0 := insertion_SortAlgorithm)
           String.eqb Demo.selectorOf Demo.web (Demo.cluster 1) tidy_cluster
           "app=web" [Demo.web_new 1] [Demo.web_old] Demo.stray);
    reflexivity.
Defined.

(** ** Stateful sets, once more *)

Section PartitionFacts.

Context {Body LabelSelector : Type}.
Implicit Types client : Client (Body := Body) (LabelSelector := LabelSelector).

(** X18: a stateful set whose rolling-update partition exceeds its
    replica count is never reported ready: the predicate expects a
    negative number of updated replicas, which no status count equals. *)
Theorem statefulset_partition_beyond_replicas client object s :
  StatefulSets_Get client (tr_namespace object) (tr_name object) = Ok s ->
  wf_StatefulSet s ->
  0 <= sts_UpdatedReplicas s ->
  sts_replicas s < sts_partition s ->
  isStatefulSetReady client object = (false, None).
Proof.
  intros Hget Hwf Hupd Hpart.
  rewrite (isStatefulSetReady_eq client object s Hget Hwf).
  f_equal. apply andb_false_iff. left. apply Z.eqb_neq. lia.
Qed.

End PartitionFacts.

Lemma statefulset_partition_beyond_replicas_witness :
  let s := {| sts_Replicas := Some 2;
              sts_RollingUpdate := Some {| Partition := Some 3 |};
              sts_UpdatedReplicas := 0; sts_ReadyReplicas := 2 |} in
  isStatefulSetReady (sts_client s) {| tr_name := "db"; tr_namespace := "default" |} =
    (false, None).
Proof.
  intros s.
  apply (statefulset_partition_beyond_replicas (sts_client s)
           {| tr_name := "db"; tr_namespace := "default" |} s eq_refl).
  - unfold wf_StatefulSet, in_int32; simpl. lia.
  - simpl. lia.
  - reflexivity.
Defined.

(** ** Errors and verdicts *)

Section VerdictFacts.

Context {Body : Type} (body_DeepEqual : Body -> Body -> bool).
Context {LabelSelector : Type}.
Context (LabelSelectorAsSelector : LabelSelector -> Result string).
Context `{!SortAlgorithm (Body := Body)}.
Context {Obj : Type}.
Context (info_Get : trackerResource -> Result Obj).
Context (Convert_v1beta1 : Obj -> Result apiextv1beta1.CustomResourceDefinition).
Context (Convert_v1 : Obj -> Result apiextv1.CustomResourceDefinition).

Implicit Types client : Client (Body := Body) (LabelSelector := LabelSelector).
Implicit Types wclient : WorkloadClient.

(** X13: no readiness predicate reports ready together with an error:
    whenever one of them returns an error, its verdict is false. *)
Theorem readiness_error_means_not_ready client wclient object e :
  (snd (isDeploymentReady body_DeepEqual LabelSelectorAsSelector client object) =
     Some e ->
   fst (isDeploymentReady body_DeepEqual LabelSelectorAsSelector client object) =
     false) /\
  (snd (isStatefulSetReady client object) = Some e ->
   fst (isStatefulSetReady client object) = false) /\
  (snd (isPodReady wclient object) = Some e ->
   fst (isPodReady wclient object) = false) /\
  (snd (isDaemonSetReady wclient object) = Some e ->
   fst (isDaemonSetReady wclient object) = false) /\
  (snd (isJobReady wclient object) = Some e ->
   fst (isJobReady wclient object) = false) /\
  (snd (isCRDBetaReady info_Get Convert_v1beta1 object) = Some e ->
   fst (isCRDBetaReady info_Get Convert_v1beta1 object) = false) /\
  (snd (isCRDReady info_Get Convert_v1 object) = Some e ->
   fst (isCRDReady info_Get Convert_v1 object) = false).
Proof.
  split_and!.
  - unfold isDeploymentReady.
    destruct (Deployments_Get _ _ _) as [d|]; [|done].
    destruct (getLatestReplicaSet _ _ d client) as [[rs|] [e'|]]; done.
  - unfold isStatefulSetReady.
    destruct (StatefulSets_Get _ _ _) as [s|]; [|done]. simpl.
    by destruct (negb _).
  - unfold isPodReady.
    destruct (Pods_Get _ _ _) as [pod|]; [|done].
    by repeat destruct (negb _).
  - unfold isDaemonSetReady.
    destruct (DaemonSets_Get _ _ _) as [ds|]; [|done]. by destruct (negb _).
  - unfold isJobReady.
    destruct (Jobs_Get _ _ _) as [job|]; [|done]. by destruct (negb _).
  - unfold isCRDBetaReady.
    destruct (info_Get object) as [o|]; [|done].
    destruct (Convert_v1beta1 o); [|done]. by destruct (negb _).
  - unfold isCRDReady.
    destruct (info_Get object) as [o|]; [|done].
    destruct (Convert_v1 o); [|done]. by destruct (negb _).
Qed.

(** X14: [isCRDReady] and [isCRDBetaReady] report ready exactly when the
    object could be refreshed and converted and the converted CRD has an
    [Established] condition with status [True] or a [NamesAccepted]
    condition with status [False]; a failed refresh or conversion is
    returned as the error, with verdict false. *)
Theorem crd_fetch_ready_iff object :
  (isCRDReady info_Get Convert_v1 object = (true, None) <->
   exists o crd, info_Get object = Ok o /\ Convert_v1 o = Ok crd /\
     Exists v1_accepting (apiextv1.Conditions crd)) /\
  (isCRDBetaReady info_Get Convert_v1beta1 object = (true, None) <->
   exists o crd, info_Get object = Ok o /\ Convert_v1beta1 o = Ok crd /\
     Exists v1beta1_accepting (apiextv1beta1.Conditions crd)) /\
  (forall e, info_Get object = Err e ->
     isCRDReady info_Get Convert_v1 object = (false, Some e) /\
     isCRDBetaReady info_Get Convert_v1beta1 object = (false, Some e)) /\
  (forall o e, info_Get object = Ok o ->
     (Convert_v1 o = Err e ->
        isCRDReady info_Get Convert_v1 object = (false, Some e)) /\
     (Convert_v1beta1 o = Err e ->
        isCRDBetaReady info_Get Convert_v1beta1 object = (false, Some e))).
Proof.
  unfold isCRDReady, isCRDBetaReady. split_and!.
  - destruct (info_Get object) as [o|e0] eqn:Eg.
    2:{ split; [done|]. by intros (? & ? & ? & _). }
    destruct (Convert_v1 o) as [crd|e1] eqn:Ec.
    2:{ split; [done|]. intros (o' & crd' & [= <-] & Hc & _). congruence. }
    destruct (crdReady crd) eqn:Er; simpl.
    + split; [|done]. intros _. exists o, crd. split_and!; [done..|].
      by apply crdReady_loop_iff.
    + split; [done|]. intros (o' & crd' & [= <-] & Hc & Hr).
      rewrite Ec in Hc. injection Hc as <-.
      apply crdReady_loop_iff in Hr. unfold crdReady in Er. congruence.
  - destruct (info_Get object) as [o|e0] eqn:Eg.
    2:{ split; [done|]. by intros (? & ? & ? & _). }
    destruct (Convert_v1beta1 o) as [crd|e1] eqn:Ec.
    2:{ split; [done|]. intros (o' & crd' & [= <-] & Hc & _). congruence. }
    destruct (crdBetaReady crd) eqn:Er; simpl.
    + split; [|done]. intros _. exists o, crd. split_and!; [done..|].
      by apply crdBetaReady_loop_iff.
    + split; [done|]. intros (o' & crd' & [= <-] & Hc & Hr).
      rewrite Ec in Hc. injection Hc as <-.
      apply crdBetaReady_loop_iff in Hr. unfold crdBetaReady in Er. congruence.
  - by intros e ->.
  - intros o e ->. split; by intros ->.
Qed.

End VerdictFacts.
